(** * EDL-Py: entry dynamics, bank-angle parametrisation and
      receding-horizon control

    A shallow embedding of [EntryGuidance/EntryEquations.py],
    [EntryGuidance/ParametrizedPlanner.py] and [EntryGuidance/MPC.py].

    Conventions of the embedding:
    - binary64 numbers are idealised as real numbers ([R]): rounding,
      overflow and NaN are outside the model;
    - a Python call either returns or raises: fallible code lives in the
      error monad [sum exn] of ExtLib ([inl] raises, [inr] returns);
    - numpy arrays and Python lists of numbers are [list R];
    - the collaborators that the repository imports but does not define
      in these three files (planet, vehicle, ODE integrator, optimiser,
      trigger search, simulation) are record fields or section
      variables. *)

From Stdlib Require Import Reals Lra Psatz List ZArith String Ascii Bool.
From ExtLib Require Import Structures.Monad Structures.MonadExc.
From ExtLib Require Import Data.Monads.EitherMonad.
Import ListNotations.
Import MonadNotation.
Local Open Scope monad_scope.
Open Scope R_scope.

(** ** Python exceptions and values *)

Inductive exn : Type :=
| TypeError
| NameError
| AttributeError
| IndexError
| ValueError
| ZeroDivisionError.

(** A Python computation: [inl e] raises [e], [inr a] returns [a]. *)
Definition py (A : Type) : Type := sum exn A.

#[global] Instance Monad_py : Monad py := Monad_either exn.

Definition raises {A : Type} (c : py A) : Prop := exists e, c = inl e.
Definition returns {A : Type} (c : py A) (a : A) : Prop := c = inr a.

(** Decidable comparisons of numbers, as Python's [<=] and [<]. *)
Definition Rle_b (x y : R) : bool := if Rle_dec x y then true else false.
Definition Rlt_b (x y : R) : bool := if Rlt_dec x y then true else false.
Infix "<=?" := Rle_b (at level 70, no associativity) : R_scope.
Infix "<?" := Rlt_b (at level 70, no associativity) : R_scope.
Notation "x >=? y" := (Rle_b y x) (at level 70, no associativity) : R_scope.
Notation "x >? y" := (Rlt_b y x) (at level 70, no associativity) : R_scope.

(** Truthiness of a number: [if cost:] tests [cost != 0]. *)
Definition truthy (x : R) : bool := if Req_dec_T x 0 then false else true.

(** [x / y] on two Python floats: a zero divisor raises.  (Where the
    numerator comes out of numpy, as after [sin], [cos] or [tan], the
    quotient never raises; such quotients are written with [/].) *)
Definition pydiv (x y : R) : py R :=
  if Req_dec_T y 0 then inl ZeroDivisionError else inr (x / y).

(** The argument of a bank profile: a Python scalar
    ([float], [int], [np.float32], [np.float64]) or a sequence. *)
Inductive pyval : Type :=
| Scalar (x : R)
| Seq (l : list R).

(** ** The numpy operations the sources use *)

Module Np.

(** [np.radians]: degrees to radians. *)
Definition radians (deg : R) : R := deg * (PI / 180).

(** [np.sign]. *)
Definition sign (x : R) : R :=
  if x <? 0 then -1 else if 0 <? x then 1 else 0.

(** [np.diff]: consecutive differences. *)
Fixpoint diff (l : list R) : list R :=
  match l with
  | a :: (b :: _) as tl => (b - a) :: diff tl
  | _ => []
  end.

(** Python's builtin [sum] over a sequence of numbers. *)
Definition sum (l : list R) : R := fold_left Rplus l 0.

Definition abs (l : list R) : list R := map Rabs l.
Definition scale (k : R) (l : list R) : list R := map (Rmult k) l.

(** Elementwise operations on arrays of one shape. *)
Fixpoint zipWith (f : R -> R -> R) (a b : list R) : list R :=
  match a, b with
  | x :: a', y :: b' => f x y :: zipWith f a' b'
  | _, _ => []
  end.
Definition add := zipWith Rplus.
Definition sub := zipWith Rminus.

(** An elementwise operation on two arrays under numpy's broadcasting:
    equal shapes, or one of the two of length one; other shapes raise. *)
Definition broadcast2 (f : R -> R -> R) (a b : list R) : py (list R) :=
  if Nat.eqb (List.length a) (List.length b) then inr (zipWith f a b)
  else match a, b with
       | [x], _ => inr (map (f x) b)
       | _, [y] => inr (map (fun x => f x y) a)
       | _, _ => inl ValueError
       end.

(** [np.linspace(start, stop, n)]. *)
Definition linspace (start stop : R) (n : nat) : list R :=
  map (fun i => start + INR i * ((stop - start) / (INR n - 1))) (seq 0 n).

(** [a[i]] with Python's negative indices; out of range raises. *)
Definition index {A : Type} (a : list A) (i : Z) : py A :=
  let n := Z.of_nat (List.length a) in
  let j := if (i <? 0)%Z then (i + n)%Z else i in
  if ((j <? 0) || (n <=? j))%Z then inl IndexError
  else match nth_error a (Z.to_nat j) with
       | Some x => inr x
       | None => inl IndexError
       end.

(** [a + b] on arrays raises when the shapes differ. *)
Definition add_arrays (a b : list R) : py (list R) :=
  if Nat.eqb (List.length a) (List.length b) then inr (add a b) else inl ValueError.

End Np.

(** ** EntryGuidance/EntryEquations.py *)

Module EntryEquations.

(** An attribute that the code both multiplies and calls
    ([self.planet.omega]): what it is as a factor, if it can be
    multiplied, and what it is as a function, if it can be called. *)
Record attribute : Type := {
  as_number : option R;
  as_callable : option (R -> R)
}.

(** A plain number and a plain function. *)
Definition Number (x : R) : attribute :=
  {| as_number := Some x; as_callable := None |}.
Definition Callable (f : R -> R) : attribute :=
  {| as_number := None; as_callable := Some f |}.

(** [k * a]. *)
Definition times (k : R) (a : attribute) : py R :=
  match as_number a with
  | Some x => inr (k * x)
  | None => inl TypeError
  end.

(** [a(arg)]. *)
Definition call (a : attribute) (arg : R) : py R :=
  match as_callable a with
  | Some f => inr (f arg)
  | None => inl TypeError
  end.

(** What the engine reads of [Planet] and [EntryVehicle], two classes
    that are imported from modules outside these files. *)
Record Planet : Type := {
  radius : R;
  mu : R;
  omega : attribute;
  atmosphere : R -> R * R            (* altitude -> (rho, a) *)
}.

Record EntryVehicle : Type := {
  area : R;
  mass : R;
  ThrustApplied : R;
  aerodynamic_coefficients : R -> R * R;   (* Mach -> (cD, cL) *)
  mdot : R -> R                            (* throttle -> mass flow *)
}.

(** The bound methods [dyn_model] can hold. *)
Inductive dyn : Type :=
| entry_3dof_method
| entry_vinhs_method.

(** An [Entry] instance; [dyn_model] is [None] while the attribute is
    not set. *)
Record Entry : Type := {
  planet : Planet;
  vehicle : EntryVehicle;
  powered : bool;
  drag_ratio : R;
  lift_ratio : R;
  dyn_model : option dyn
}.

(** Lookup of a dynamics method of the class by its name: the class
    body defines [__entry_3dof] and [__entry_vinhs] and no
    [__entry_2dof]. *)
Definition class_method (name : string) : py dyn :=
  if String.eqb name "__entry_3dof" then inr entry_3dof_method
  else if String.eqb name "__entry_vinhs" then inr entry_vinhs_method
  else inl AttributeError.

Definition set_dyn_model (self : Entry) (m : dyn) : Entry :=
  {| planet := planet self; vehicle := vehicle self;
     powered := powered self; drag_ratio := drag_ratio self;
     lift_ratio := lift_ratio self; dyn_model := Some m |}.

(** [Entry.__init__]: what is printed, and the instance or the
    exception. *)
Definition init (PlanetModel : Planet) (VehicleModel : EntryVehicle)
    (Coriolis : bool) (DegFreedom : Z) (Powered : bool)
    : list string * py Entry :=
  let self :=
    {| planet := PlanetModel; vehicle := VehicleModel; powered := Powered;
       drag_ratio := 1; lift_ratio := 1; dyn_model := None |} in
  if (DegFreedom =? 2)%Z then
    ([], m <- class_method "__entry_2dof" ;; ret (set_dyn_model self m))
  else if (DegFreedom =? 3)%Z then
    if Coriolis
    then ([], m <- class_method "__entry_vinhs" ;; ret (set_dyn_model self m))
    else ([], m <- class_method "__entry_3dof" ;; ret (set_dyn_model self m))
  else (["Inapproriate number of degrees of freedom."%string], inr self).

Definition update_ratios (self : Entry) (LR DR : R) : Entry :=
  {| planet := planet self; vehicle := vehicle self;
     powered := powered self; drag_ratio := DR;
     lift_ratio := LR; dyn_model := dyn_model self |}.

Definition ignite (self : Entry) : Entry :=
  {| planet := planet self; vehicle := vehicle self;
     powered := true; drag_ratio := drag_ratio self;
     lift_ratio := lift_ratio self; dyn_model := dyn_model self |}.

(** The parameters of [Entry.__init__], [self] apart; a call with a
    keyword that names none of them raises [TypeError] before the body
    runs. *)
Definition init_parameters : list string :=
  ["PlanetModel"; "VehicleModel"; "Coriolis"; "DegFreedom";
   "Powered"]%string.

Definition init_accepts (keyword : string) : bool :=
  existsb (String.eqb keyword) init_parameters.

(** Tuple unpacking of a sequence: the lengths must agree. *)
Definition unpack8 (x : list R) : py (R * R * R * R * R * R * R * R) :=
  match x with
  | [r; theta; phi; v; gamma; psi; s; m] =>
      inr (r, theta, phi, v, gamma, psi, s, m)
  | _ => inl ValueError
  end.

Definition unpack3 (u : list R) : py (R * R * R) :=
  match u with
  | [a; b; c] => inr (a, b, c)
  | _ => inl ValueError
  end.

Definition unpack4 (u : list R) : py (R * R * R * R) :=
  match u with
  | [a; b; c; d] => inr (a, b, c, d)
  | _ => inl ValueError
  end.

(** [Entry.__entry_3dof]: non-rotating planet.  The entries of the state
    and the numbers of the planet and the vehicle are Python floats, so
    [mu/r**2], [v/a], [.../mass], [L/v], [v/r], [g/v] and [-v/r] raise on
    a zero divisor; the other quotients have a numpy numerator. *)
Definition entry_3dof (self : Entry) (x : list R) (t : R) (u : list R)
  : py (list R) :=
  '(r, theta, phi, v, gamma, psi, s, m) <- unpack8 x ;;
  '(sigma, throttle, mu_) <- unpack3 u ;;
  let h := r - radius (planet self) in
  g <- pydiv (mu (planet self)) (r ^ 2) ;;
  let '(rho, a) := atmosphere (planet self) h in
  M <- pydiv v a ;;
  let '(cD, cL) := aerodynamic_coefficients (vehicle self) M in
  f <- pydiv (0.5 * rho * area (vehicle self) * v ^ 2) (mass (vehicle self)) ;;
  let L := f * cL * lift_ratio self in
  let D := f * cD * drag_ratio self in
  let dh := v * sin gamma in
  let dtheta := v * cos gamma * cos psi / r / cos phi in
  let dphi := v * cos gamma * sin psi / r in
  let dv := - D - g * sin gamma in
  Lv <- pydiv L v ;;
  vr <- pydiv v r ;;
  gv <- pydiv g v ;;
  let dgamma := Lv * cos sigma + cos gamma * (vr - gv) in
  let dpsi :=
    - L * sin sigma / v / cos gamma - v * cos gamma * cos psi * tan phi / r in
  nvr <- pydiv (- v) r ;;
  let ds := nvr * radius (planet self) * cos gamma in
  let dm := mdot (vehicle self) throttle in
  ret [dh; dtheta; dphi; dv; dgamma; dpsi; ds; dm].

(** The module binds no global [control_fun]: reading it raises. *)
Definition control_fun : py (list R) := inl NameError.

(** [Entry.__entry_vinhs]: rotating planet. *)
Definition entry_vinhs (self : Entry) (x : list R) (t : R) (u : list R)
  : py (list R) :=
  '(r, theta, phi, v, gamma, psi, s, m) <- unpack8 x ;;
  let dh := 0 in
  let dtheta := 0 in
  let dphi := 0 in
  let dv := 0 in
  w <- times 2 (omega (planet self)) ;;
  let dgamma := w * cos psi * cos phi in
  c <- call (omega (planet self))
         (tan gamma * cos phi * sin psi - sin phi) ;;
  let dpsi := 2 * c in
  let ds := 0 in
  let dm := 0 in
  cf <- control_fun ;;
  base <- entry_3dof self x t cf ;;
  Np.add_arrays base [dh; dtheta; dphi; dv; dgamma; dpsi; ds; dm].

(** [Entry.__thrust_3dof]. *)
Definition thrust_3dof (self : Entry) (x : list R) (u : list R)
  : py (list R) :=
  '(r, theta, phi, v, gamma, psi, s, m) <- unpack8 x ;;
  '(sigma, throttle, thrustAngle) <- unpack3 u ;;
  ret [0; 0; 0;
       ThrustApplied (vehicle self) * throttle * cos (thrustAngle - gamma) / m;
       ThrustApplied (vehicle self) * throttle * sin (thrustAngle - gamma)
         / (m * v);
       0; 0; mdot (vehicle self) throttle].

(** [self.dyn_model(x, t, u)]: the attribute may be unset. *)
Definition call_dyn_model (self : Entry) (x : list R) (t : R) (u : list R)
  : py (list R) :=
  match dyn_model self with
  | None => inl AttributeError
  | Some entry_3dof_method => entry_3dof self x t u
  | Some entry_vinhs_method => entry_vinhs self x t u
  end.

(** [Entry.dynamics]: the function handed to the integrator.  The
    branch on [self.powered] is taken when [dynamics] is called; the
    returned closure holds the instance itself and reads its fields when
    it is applied, so it takes the instance as it is at that moment
    ([now]). *)
Definition dynamics (self : Entry) (u : list R)
  : Entry -> list R -> R -> py (list R) :=
  if powered self
  then fun now x t =>
         d <- call_dyn_model now x t u ;;
         th <- thrust_3dof now x u ;;
         Np.add_arrays d th
  else fun now x t => call_dyn_model now x t u.

(** [Entry.altitude]. *)
Definition altitude (self : Entry) (r : R) (km : bool) : R :=
  if km then (r - radius (planet self)) / 1000
  else r - radius (planet self).

(** [Entry.energy], on arrays of radii and speeds. *)
Definition energy (self : Entry) (r v : list R) (Normalized : bool)
  : py (list R) :=
  E <- Np.broadcast2
         (fun vi ri =>
            0.5 * vi ^ 2 + mu (planet self) / radius (planet self)
            - mu (planet self) / ri ^ 2) v r ;;
  if Normalized then
    E0 <- Np.index E 0 ;;
    El <- Np.index E (-1) ;;
    ret (map (fun e => (e - E0) / (El - E0)) E)
  else ret E.

(** The loop of [Entry.aeroforces] from index [i] on. *)
Fixpoint aeroforces_from (self : Entry) (h v : list R) (i : nat)
  : py (list R * list R) :=
  match h with
  | [] => ret ([], [])
  | hi :: h' =>
      let '(rho, a) := atmosphere (planet self) hi in
      vi <- Np.index v (Z.of_nat i) ;;
      let M := vi / a in
      let '(cD, cL) := aerodynamic_coefficients (vehicle self) M in
      let f :=
        0.5 * rho * area (vehicle self) * vi ^ 2 / mass (vehicle self) in
      '(L, D) <- aeroforces_from self h' v (S i) ;;
      ret (f * cL :: L, f * cD :: D)
  end.

(** [Entry.aeroforces]. *)
Definition aeroforces (self : Entry) (r v : list R) : py (list R * list R) :=
  let h := map (fun ri => ri - radius (planet self)) r in
  aeroforces_from self h v 0.

(** Modelled from the spec: [Filter.FadingMemory], imported from a module
    outside these files; the derivative of a first-order fading-memory
    estimate is gain x (measured - current). *)
Definition FadingMemory (currentValue measuredValue gain : R) : R :=
  gain * (measuredValue - currentValue).

Section Composite.

(** The constructors [Planet(rho0=, scaleHeight=)] and
    [EntryVehicle(CD=, CL=)]. *)
Variable Planet_new : R -> R -> Planet.
Variable EntryVehicle_new : R -> R -> EntryVehicle.

(** [EDL(InputSample)]. *)
Definition EDL (InputSample : list R) : py Entry :=
  '(CD, CL, rho0, sh) <- unpack4 InputSample ;;
  snd (init (Planet_new rho0 sh) (EntryVehicle_new CD CL) false 3 false).

Record System : Type := {
  model : Entry;
  truth : Entry;
  nav : Entry;
  gain : R
}.

(** [System.__init__]. *)
Definition System_init (InputSample : list R) : py System :=
  m <- EDL [0; 0; 0; 0] ;;
  tr <- EDL InputSample ;;
  nv <- EDL InputSample ;;
  ret {| model := m; truth := tr; nav := nv; gain := 0.0 |}.

Definition setFilterGain (self : System) (g : R) : System :=
  {| model := model self; truth := truth self; nav := nav self;
     gain := g |}.

(** [System.__filterUpdate]. *)
Definition filterUpdate (self : System) (x : list R) (t : R)
  : py (list R) :=
  RL <- Np.index x 16 ;;
  RD <- Np.index x 17 ;;
  x8 <- Np.index x 8 ;;
  x11 <- Np.index x 11 ;;
  '(L, D) <- aeroforces (model self) [x8] [x11] ;;
  '(Lm, Dm) <- aeroforces (nav self) [x8] [x11] ;;
  Lm0 <- Np.index Lm 0 ;;
  L0 <- Np.index L 0 ;;
  let dRL := FadingMemory RL (Lm0 / L0) (gain self) in
  Dm0 <- Np.index Dm 0 ;;
  D0 <- Np.index D 0 ;;
  let dRD := FadingMemory RD (Dm0 / D0) (gain self) in
  ret [dRL; dRD].

(** [x[a:b]]. *)
Definition slice (x : list R) (a b : nat) : list R :=
  firstn (b - a) (skipn a x).


End Composite.

End EntryEquations.

(** ** EntryGuidance/ParametrizedPlanner.py *)

Module ParametrizedPlanner.

(** [checkFeasibility(T, sign=-1)]. *)
Definition checkFeasibility (T : list R) (sign : R) : R :=
  let sig := Np.scale sign (Np.diff T) in
  let cost :=
    (Np.sum (Np.add sig (Np.abs sig)) + Np.sum (Np.sub (Np.abs T) T)) * 1e5 in
  if truthy cost then Rmax cost 1e7 else 0.

(** The loop body of [HEPBankReduced] for one sample [t]. *)
Definition HEPBankReduced_at (t t1 t2 minBank maxBank : R) : R :=
  let maxRate := Np.radians 20 in
  let ti1 := t1 + 2 * maxBank / maxRate in
  let ti2 := t2 + (maxBank + minBank) / maxRate in
  if t <=? t1 then maxBank
  else if (t >=? t1) && (t <=? ti1) then maxBank - maxRate * (t - t1)
  else if (t >=? ti1) && (t <=? t2) then - maxBank
  else if (t >=? t2) && (t <=? ti2) then - maxBank + maxRate * (t - t2)
  else minBank.

(** [HEPBankReduced(T, t1, t2, minBank, maxBank)]: a scalar argument is
    wrapped in a list and the first element of the result is returned
    ([-1.] should the result be empty). *)
Definition HEPBankReduced (T : pyval) (t1 t2 minBank maxBank : R) : pyval :=
  let '(T, isScalar) :=
    match T with Scalar x => ([x], true) | Seq l => (l, false) end in
  let bank := map (fun t => HEPBankReduced_at t t1 t2 minBank maxBank) T in
  if isScalar
  then match bank with b :: _ => Scalar b | [] => Scalar (-1) end
  else Seq bank.

(** The loop body of [HEPBankReducedSmooth] for one sample [t]. *)
Definition HEPBankReducedSmooth_at (t t1 t2 minBank maxBank : R) : R :=
  let maxRate := Np.radians 20 in
  let maxAcc := Np.radians 5 in
  let dt := maxRate / maxAcc in
  let dbank := 0.5 * (maxRate ^ 2) / maxAcc in
  let t1a := t1 + dt in
  let t1v := t1 + 2 * maxBank / maxRate in
  let t1d := t1v + dt in
  let t2a := t2 + dt in
  let t2v := t2 + (minBank + maxBank) / maxRate in
  let t2d := t2v + dt in
  if t <=? t1 then maxBank
  else if (t >? t1) && (t <=? t1a)
    then maxBank - 0.5 * maxAcc * (t - t1) ^ 2
  else if (t >? t1a) && (t <=? t1v)
    then maxBank - dbank - maxRate * (t - t1a)
  else if (t >? t1v) && (t <=? t1d)
    then dbank - maxBank - maxRate * (t - t1v) + 0.5 * maxAcc * (t - t1v) ^ 2
  else if (t >? t1d) && (t <=? t2) then - maxBank
  else if (t >? t2) && (t <=? t2a)
    then - maxBank + 0.5 * maxAcc * (t - t2) ^ 2
  else if (t >? t2a) && (t <=? t2v)
    then dbank - maxBank + maxRate * (t - t2a)
  else if (t >? t2v) && (t <=? t2d)
    then minBank - dbank + maxRate * (t - t2v) - 0.5 * maxAcc * (t - t2v) ^ 2
  else minBank.

(** [HEPBankReducedSmooth(T, t1, t2, minBank, maxBank)]: [noMax1] and
    [isScalar] are computed and never read; the function ends in
    [return bank] on every path. *)
Definition HEPBankReducedSmooth (T : pyval) (t1 t2 minBank maxBank : R)
  : pyval :=
  let '(T, isScalar) :=
    match T with Scalar x => ([x], true) | Seq l => (l, false) end in
  let bank := map (fun t => HEPBankReducedSmooth_at t t1 t2 minBank maxBank) T in
  Seq bank.

(** The loop body of [HEPBank] for one sample [t]. *)
Definition HEPBank_at (t t1 t2 t3 minBank maxBank : R) : R :=
  let maxRate := Np.radians 20 in
  let ti1 := t1 + (maxBank + minBank) / maxRate in
  let ti2 := t2 + 2 * maxBank / maxRate in
  let ti3 := t3 + (maxBank + minBank) / maxRate in
  if (t <? t1) && (t >=? 0) then - minBank
  else if (t >=? t1) && (t <=? ti1) then - minBank + maxRate * (t - t1)
  else if (t >=? ti1) && (t <=? t2) then maxBank
  else if (t >=? t2) && (t <=? ti2) then maxBank - maxRate * (t - t2)
  else if (t >=? ti2) && (t <=? t3) then - maxBank
  else if (t >=? t3) && (t <=? ti3) then - maxBank + maxRate * (t - t3)
  else minBank.

(** [HEPBank(T, t1, t2, t3, minBank, maxBank)]. *)
Definition HEPBank (T : pyval) (t1 t2 t3 minBank maxBank : R) : pyval :=
  let '(T, isScalar) :=
    match T with Scalar x => ([x], true) | Seq l => (l, false) end in
  let bank := map (fun t => HEPBank_at t t1 t2 t3 minBank maxBank) T in
  if isScalar
  then match bank with b :: _ => Scalar b | [] => Scalar (-1) end
  else Seq bank.

(** The default keyword arguments [minBank] and [maxBank]. *)
Definition minBank_default : R := Np.radians 15.
Definition maxBank_default : R := Np.radians 85.

(** [bank(iv, *T)]: the switch times are unpacked into the positional
    parameters; a fourth and fifth element would land in [minBank] and
    [maxBank], any other arity raises. *)
Definition HEPBank_star (iv : pyval) (T : list R) : py pyval :=
  match T with
  | [t1; t2; t3] => inr (HEPBank iv t1 t2 t3 minBank_default maxBank_default)
  | [t1; t2; t3; mn] => inr (HEPBank iv t1 t2 t3 mn maxBank_default)
  | [t1; t2; t3; mn; mx] => inr (HEPBank iv t1 t2 t3 mn mx)
  | _ => inl TypeError
  end.

Definition HEPBankReducedSmooth_star (iv : pyval) (T : list R) : py pyval :=
  match T with
  | [t1; t2] =>
      inr (HEPBankReducedSmooth iv t1 t2 minBank_default maxBank_default)
  | [t1; t2; mn] => inr (HEPBankReducedSmooth iv t1 t2 mn maxBank_default)
  | [t1; t2; mn; mx] => inr (HEPBankReducedSmooth iv t1 t2 mn mx)
  | _ => inl TypeError
  end.

(** What [HEPCost] needs of its [entry] argument: the dynamics under a
    bank profile, the altitude in kilometres and the planet's range
    computation [(lon0, lat0, heading0, lonc, latc) -> (dr, cr)]. *)
Record EntryModel : Type := {
  entry_dynamics :
    (list R -> R -> py pyval) -> list R -> R -> py (list R);
  entry_altitude_km : R -> R;
  planet_range : R -> R -> R -> R -> R -> R * R
}.

Record Target : Type := { DR : R; CR : R }.

(** The observable work of a cost evaluation: trajectory integrations. *)
Inductive event : Type := Integrate.

Section Cost.

(** [scipy.integrate.odeint] and [Triggers.findTriggerPoint]. *)
Variable odeint :
  (list R -> R -> py (list R)) -> list R -> list R -> py (list (list R)).
Variable findTriggerPoint : list (list R) -> list R -> Z.

(** The terminal cost of a trajectory [X] started at [x0]. *)
Definition terminal_cost (entry : EntryModel) (target : Target)
    (x0 : list R) (X : list (list R)) (time : list R) : py R :=
  let idx := (findTriggerPoint X time - 1)%Z in
  row <- Np.index X idx ;;
  r <- Np.index row 0 ;;
  let h := entry_altitude_km entry r in
  lon0 <- Np.index x0 1 ;;
  lat0 <- Np.index x0 2 ;;
  psi0 <- Np.index x0 5 ;;
  lonc <- Np.index row 1 ;;
  latc <- Np.index row 2 ;;
  let '(dr, cr) := planet_range entry lon0 lat0 psi0 lonc latc in
  let Wh := 0.8 * 1e-6 in
  ret (- h * Wh + sqrt ((DR target - dr) ^ 2 + (CR target - cr) ^ 2)).

(** [HEPCost(T, x0, entry, target, bank, getIV, check)], with the
    integrations it performs. *)
Definition HEPCost (T x0 : list R) (entry : EntryModel) (target : Target)
    (bank : pyval -> list R -> py pyval) (getIV : list R -> R -> py R)
    (check : list R -> R) : list event * py R :=
  let J := check T in
  if J >? 300 then ([], inr J)
  else
    let hep := fun x t => iv <- getIV x t ;; bank (Scalar iv) T in
    let time := Np.linspace 0 450 1000 in
    ([Integrate],
     X <- odeint (entry_dynamics entry hep) x0 time ;;
     terminal_cost entry target x0 X time).

End Cost.

(** The two feasibility checks [Optimize] passes to [HEPCost]: the time
    parametrisation and the velocity parametrisation. *)
Definition check_time (T : list R) : R := checkFeasibility T (-1).
Definition check_velocity (v : list R) : R :=
  checkFeasibility (map Ropp v) 1.

(** [str.lower()] on ASCII text. *)
Definition lower_char (c : ascii) : ascii :=
  let n := nat_of_ascii c in
  if ((65 <=? n) && (n <=? 90))%nat then ascii_of_nat (n + 32) else c.

Fixpoint lower (s : string) : string :=
  match s with
  | EmptyString => EmptyString
  | String c s' => String (lower_char c) (lower s')
  end.

(** [sub in s]. *)
Definition contains (sub s : string) : bool :=
  match String.index 0 sub s with
  | Some _ => true
  | None => false
  end.

(** What the optimisers print. *)
Inductive message : Type :=
| Text (s : string)
| Switching (n : Z) (iv : string) (x : list R)
| SwitchingTimes (x : list R) (cost : R).

(** The two independent variables: [lambda x,t: t] and
    [lambda x,t: -x[3]]. *)
Definition getIV_time (x : list R) (t : R) : py R := inr t.
Definition getIV_velocity (x : list R) (t : R) : py R :=
  v <- Np.index x 3 ;; ret (- v).

Section Optimizers.

(** [odeint], [findTriggerPoint], the Nelder-Mead search
    [minimize(...).x], the global search [differential_evolution(...)]
    (its [x] and [fun]), the object [Target()], and the object that
    [Entry(Trigger=...)] would build were the keyword accepted. *)
Variable odeint :
  (list R -> R -> py (list R)) -> list R -> list R -> py (list (list R)).
Variable findTriggerPoint : list (list R) -> list R -> Z.
Variable minimize : (list R -> py R) -> list R -> py (list R).
Variable differential_evolution :
  (list R -> py R) -> list (R * R) -> py (list R * R).
Variable entry : EntryModel.
Variable target : Target.

(** [Entry(Trigger = partial(DeployParachute, {'velBias': 30}))], a call
    of [Entry.__init__] with the keyword [Trigger]. *)
Definition Entry_Trigger : py EntryModel :=
  if EntryEquations.init_accepts "Trigger" then inr entry
  else inl TypeError.

(** [Optimize(x0, n, iv)]: what is printed, and [None], or the bank
    profile with its switch points, or the exception.  A name that was
    never assigned raises [UnboundLocalError], a [NameError]. *)
Definition Optimize (x0 : list R) (n : Z) (iv : string)
  : list message
    * py (option ((list R -> R -> py pyval) * list R)) :=
  match (if (n =? 3)%Z then Some ([50; 100; 133], HEPBank_star)
         else if (n =? 2)%Z then Some ([106; 133], HEPBankReducedSmooth_star)
         else None) with
  | None => ([Text "Optimize: improper input for n."], inr None)
  | Some (guess, bankFun) =>
      let names :=
        if String.eqb (lower iv) "time" then
          (guess, Some getIV_time, Some check_time)
        else if contains "vel" (lower iv) then
          let guess :=
            if (n =? 2)%Z then [-4700; -2100]
            else if (n =? 3)%Z then [-5100; -4500; -2500]
            else guess in
          (guess, Some getIV_velocity, Some check_velocity)
        else (guess, None, None) in
      match Entry_Trigger with
      | inl e => ([], inl e)
      | inr entry =>
          match names with
          | (guess, Some getIV, Some check) =>
              match minimize
                      (fun T =>
                         snd (HEPCost odeint findTriggerPoint T x0 entry
                                target bankFun getIV check))
                      guess with
              | inl e => ([], inl e)
              | inr x =>
                  ([Switching n iv x],
                   inr (Some ((fun st t =>
                                 v <- getIV st t ;; bankFun (Scalar v) x),
                              x)))
              end
          | _ => ([], inl NameError)
          end
      end
  end.

(** [OptimizeSmooth(x0)]: the check is [lambda T: True]. *)
Definition OptimizeSmooth (x0 : list R)
  : list message * py ((list R -> R -> py pyval) * (list R * R)) :=
  match Entry_Trigger with
  | inl e => ([], inl e)
  | inr entry =>
      let bankFun := HEPBankReducedSmooth_star in
      let getIV := getIV_time in
      let check := fun _ : list R => 1 in
      let bounds := [(0, 250); (100, 350)] in
      match differential_evolution
              (fun T =>
                 snd (HEPCost odeint findTriggerPoint T x0 entry target
                        bankFun getIV check))
              bounds with
      | inl e => ([], inl e)
      | inr (x, cost) =>
          ([SwitchingTimes x cost],
           inr ((fun st t => v <- getIV st t ;; bankFun (Scalar v) x),
                (x, cost)))
      end
  end.

End Optimizers.

End ParametrizedPlanner.

(** ** EntryGuidance/MPC.py *)

Module MPC.

(** [constant(value, **kwargs)]. *)
Definition constant (value : R) : R := value.

Record Options : Type := { N : Z; T : R; dt : R }.

(** [options(N, T)]. *)
Definition options (N : Z) (T : R) : py Options :=
  if (N =? 0)%Z then inl ZeroDivisionError
  else inr {| N := N; T := T; dt := T / IZR N |}.

(** The entries of the [references] dictionary the controller reads. *)
Record References : Type := {
  bank : R -> R;
  drag : list R -> list R
}.

(** The keyword arguments of [controller]. *)
Record Kwargs : Type := {
  current_state : list R;
  aero_ratios : list R;
  velocity : R;
  kw_drag : R;
  fpa : R
}.

(** [sol.x]: a number from the scalar search, an array from the vector
    search. *)
Inductive solx : Type :=
| XScalar (x : R)
| XVector (v : list R).

(** [lateral(velocity, drag, fpa, T)]. *)
Definition lateral (velocity drag fpa T : R) : R :=
  let vdot := drag * sin fpa - 3.7 in
  let vf := velocity + T * vdot in
  vf.

(** [scipy.integrate.trapz(y, x)]. *)
Fixpoint trapz (y x : list R) : R :=
  match y, x with
  | y0 :: ((y1 :: _) as y'), x0 :: ((x1 :: _) as x') =>
      (x1 - x0) * (y0 + y1) / 2 + trapz y' x'
  | _, _ => 0
  end.

(** [output[:, k]]. *)
Fixpoint column (output : list (list R)) (k : Z) : py (list R) :=
  match output with
  | [] => ret []
  | row :: rest =>
      c <- Np.index row k ;;
      cs <- column rest k ;;
      ret (c :: cs)
  end.

Section Controller.

(** [Simulation(output=False, **NMPCSim(control_options)).run(state,
    controls, AeroRatios=ratios)]: the simulation is outside these
    files; the controls are constant functions, given by their
    values. *)
Variable sim_run :
  Options -> list R -> list R -> list R -> list (list R).

(** [scipy.optimize.minimize(...).x] and
    [scipy.optimize.minimize_scalar(...).x]. *)
Variable minimize :
  (list R -> py R) -> list R -> list (R * R) -> list R.
Variable minimize_scalar : (R -> py R) -> R * R -> R.

(** [cost(u, sim, state, ratios, reference, scalar)]. *)
Definition cost (u : solx) (sim : list R -> list R -> list R -> list (list R))
    (state ratios : list R) (reference : References) (scalar : bool)
  : py R :=
  controls <-
    (if scalar
     then match u with
          | XScalar x => inr [constant x]
          | XVector _ => inl TypeError
          end
     else match u with
          | XVector v => inr (map constant v)
          | XScalar _ => inl TypeError
          end) ;;
  let output := sim state controls ratios in
  time <- column output 0 ;;
  drag_ <- column output 13 ;;
  vel <- column output 7 ;;
  range <- column output 10 ;;
  fpa_ <- column output 8 ;;
  let fpa_ := map Np.radians fpa_ in
  let drag_ref := drag reference vel in
  let integrand :=
    map (fun d => 1 * d ^ 2) (Np.sub drag_ drag_ref) in
  ret (trapz integrand time).

(** [optimize(current_state, control_options, control_bounds,
    aero_ratios, reference)]. *)
Definition optimize (state : list R) (control_options : Options)
    (control_bounds : list (R * R)) (ratios : list R)
    (reference : References) : py solx :=
  let sim := sim_run control_options in
  let guess := repeat (PI / 6) (Z.to_nat (N control_options)) in
  if (N control_options >? 1)%Z then
    let scalar := false in
    ret (XVector
           (minimize
              (fun u => cost (XVector u) sim state ratios reference scalar)
              guess control_bounds))
  else
    let scalar := true in
    b0 <- Np.index control_bounds 0 ;;
    ret (XScalar
           (minimize_scalar
              (fun u => cost (XScalar u) sim state ratios reference scalar)
              b0)).

(** [controller(control_options, control_bounds, references,
    **kwargs)]. *)
Definition controller (control_options : Options) (control_bounds : R * R)
    (references : References) (kwargs : Kwargs) : py solx :=
  let bounds := repeat control_bounds (Z.to_nat (N control_options)) in
  sol <- optimize (current_state kwargs) control_options bounds
           (aero_ratios kwargs) references ;;
  let vf :=
    lateral (velocity kwargs) (kw_drag kwargs) (fpa kwargs)
      (T control_options) in
  if (N control_options >? 1)%Z then
    match sol with
    | XVector v =>
        x0 <- Np.index v 0 ;;
        ret (XScalar (x0 * Np.sign (bank references vf)))
    | XScalar _ => inl IndexError
    end
  else
    match sol with
    | XScalar x => ret (XScalar (x * Np.sign (bank references vf)))
    | XVector v =>
        ret (XVector (Np.scale (Np.sign (bank references vf)) v))
    end.

End Controller.

End MPC.

(** * Specification-side definitions and sample instances *)

Import EntryEquations ParametrizedPlanner.

(** The size of the violation of "non-negative and ascending" by three
    switch times: the amounts by which a time exceeds its successor or
    falls below zero, each counted twice. *)
Definition violation (t1 t2 t3 : R) : R :=
  2 * Rmax (t1 - t2) 0 + 2 * Rmax (t2 - t3) 0
  + (2 * Rmax (- t1) 0 + 2 * Rmax (- t2) 0 + 2 * Rmax (- t3) 0).

(** The quantities of the specification's equations: gravity
    [g = mu / r^2], and lift and drag at altitude [h = r - R_planet] and
    Mach [v / a], scaled by the instance's [lift_ratio] and
    [drag_ratio]. *)
Definition spec_gravity (self : Entry) (r : R) : R :=
  mu (planet self) / (r * r).

Definition spec_dynamic_pressure_term (self : Entry) (r v : R) : R :=
  let h := r - radius (planet self) in
  / 2 * fst (atmosphere (planet self) h) * area (vehicle self) * (v * v)
  / mass (vehicle self).

Definition spec_mach (self : Entry) (r v : R) : R :=
  v / snd (atmosphere (planet self) (r - radius (planet self))).

Definition spec_lift (self : Entry) (r v : R) : R :=
  spec_dynamic_pressure_term self r v
  * snd (aerodynamic_coefficients (vehicle self) (spec_mach self r v))
  * lift_ratio self.

Definition spec_drag (self : Entry) (r v : R) : R :=
  spec_dynamic_pressure_term self r v
  * fst (aerodynamic_coefficients (vehicle self) (spec_mach self r v))
  * drag_ratio self.

(** The specification's right-hand sides, in the order
    [h, theta, phi, v, gamma, psi, s, m]. *)
Definition spec_3dof (self : Entry)
    (r phi v gamma psi sigma throttle : R) : list R :=
  let g := spec_gravity self r in
  let L := spec_lift self r v in
  let D := spec_drag self r v in
  [ v * sin gamma;
    v * cos gamma * cos psi / (r * cos phi);
    v * cos gamma * sin psi / r;
    - D - g * sin gamma;
    (L / v) * cos sigma + cos gamma * (v / r - g / v);
    - (L * sin sigma) / (v * cos gamma)
      - (v * cos gamma * cos psi * tan phi) / r;
    - (v / r) * radius (planet self) * cos gamma;
    mdot (vehicle self) throttle ].

(** An instance to evaluate on: constant atmosphere and coefficients, the
    non-rotating model selected, unpowered, ratios [1]. *)
(** The state leaves every float division of [__entry_3dof] defined: the
    radius, the speed, the speed of sound at the state's altitude and the
    vehicle's mass are not zero. *)
Definition divisors_nonzero (self : Entry) (x : list R) : Prop :=
  match x with
  | [r; _; _; v; _; _; _; _] =>
      r <> 0 /\ v <> 0
      /\ snd (atmosphere (planet self) (r - radius (planet self))) <> 0
      /\ mass (vehicle self) <> 0
  | _ => False
  end.

Definition sample_planet : Planet :=
  {| radius := 3397000; mu := 42830000000000; omega := Number 0;
     atmosphere := fun _ => (1, 200) |}.

Definition sample_vehicle : EntryVehicle :=
  {| area := 16; mass := 8500; ThrustApplied := 0;
     aerodynamic_coefficients := fun _ => (1, 1); mdot := fun _ => 0 |}.

Definition sample_entry : Entry :=
  {| planet := sample_planet; vehicle := sample_vehicle; powered := false;
     drag_ratio := 1; lift_ratio := 1; dyn_model := Some entry_3dof_method |}.

(** The instance [__init__] has built before it selects a model. *)
Definition bare_entry (P : Planet) (V : EntryVehicle) (Pw : bool) : Entry :=
  {| planet := P; vehicle := V; powered := Pw; drag_ratio := 1;
     lift_ratio := 1; dyn_model := None |}.



(** An identity "optimiser" and an empty simulation to evaluate on. *)
Definition sample_minimize (f : list R -> py R) (guess : list R)
    (bounds : list (R * R)) : list R := guess.

Definition sample_minimize_scalar (f : R -> py R) (b : R * R) : R := fst b.

Definition sample_sim_run (o : MPC.Options) (state controls ratios : list R)
  : list (list R) := [].


Definition sample_references : MPC.References :=
  {| MPC.bank := fun v => v; MPC.drag := fun vel => vel |}.

Definition sample_kwargs : MPC.Kwargs :=
  {| MPC.current_state := []; MPC.aero_ratios := [1; 1];
     MPC.velocity := 5505; MPC.kw_drag := 0; MPC.fpa := 0 |}.

(** The public operations of an [Entry] instance. *)
Inductive operation : Type :=
| op_update_ratios (LR DR : R)
| op_ignite
| op_dynamics (u : list R)
| op_apply_dynamics (u x : list R) (t : R)
| op_altitude (r : R) (km : bool)
| op_energy (r v : list R) (Normalized : bool)
| op_aeroforces (r v : list R).

(** The instance after an operation: [update_ratios] and [ignite] assign
    attributes, the other methods only read them. *)
Definition step (self : Entry) (o : operation) : Entry :=
  match o with
  | op_update_ratios LR DR => update_ratios self LR DR
  | op_ignite => ignite self
  | op_dynamics _ | op_apply_dynamics _ _ _ | op_altitude _ _
  | op_energy _ _ _ | op_aeroforces _ _ => self
  end.

Definition run (self : Entry) (ops : list operation) : Entry :=
  fold_left step ops self.

(** Two instances that differ at most in [lift_ratio] and
    [drag_ratio]. *)
Definition same_but_ratios (e1 e2 : Entry) : Prop :=
  planet e1 = planet e2 /\ vehicle e1 = vehicle e2
  /\ powered e1 = powered e2 /\ dyn_model e1 = dyn_model e2.

(** Lift and drag of the nominal model at radius [r] and speed [v],
    without any ratio. *)
Definition nominal_forces (e : Entry) (r v : R) : R * R :=
  let atm := atmosphere (planet e) (r - radius (planet e)) in
  let co := aerodynamic_coefficients (vehicle e) (v / snd atm) in
  let f := 0.5 * fst atm * area (vehicle e) * v ^ 2 / mass (vehicle e) in
  (f * snd co, f * fst co).

(** Two systems that differ only in the ratios of their instances, and
    two composite states that differ only in the ratio estimates. *)
Definition sample_system : System :=
  {| model := sample_entry; truth := sample_entry; nav := sample_entry;
     gain := 1 |}.

Definition sample_system_ratios : System :=
  {| model := update_ratios sample_entry 2 3; truth := sample_entry;
     nav := update_ratios sample_entry 4 5; gain := 1 |}.

Definition sample_composite (RL RD : R) : list R :=
  [3540000; 0; 0; 5505; 0; 0; 1000000; 8500;
   3540000; 0; 0; 5505; 0; 0; 1000000; 8500; RL; RD].

(** The three loop bodies with the rate and acceleration limits as
    parameters; the sources fix them to 20 and 5 degrees. *)
Definition rect3 (maxRate t t1 t2 t3 minBank maxBank : R) : R :=
  let ti1 := t1 + (maxBank + minBank) / maxRate in
  let ti2 := t2 + 2 * maxBank / maxRate in
  let ti3 := t3 + (maxBank + minBank) / maxRate in
  if (t <? t1) && (t >=? 0) then - minBank
  else if (t >=? t1) && (t <=? ti1) then - minBank + maxRate * (t - t1)
  else if (t >=? ti1) && (t <=? t2) then maxBank
  else if (t >=? t2) && (t <=? ti2) then maxBank - maxRate * (t - t2)
  else if (t >=? ti2) && (t <=? t3) then - maxBank
  else if (t >=? t3) && (t <=? ti3) then - maxBank + maxRate * (t - t3)
  else minBank.

Definition rect2 (maxRate t t1 t2 minBank maxBank : R) : R :=
  let ti1 := t1 + 2 * maxBank / maxRate in
  let ti2 := t2 + (maxBank + minBank) / maxRate in
  if t <=? t1 then maxBank
  else if (t >=? t1) && (t <=? ti1) then maxBank - maxRate * (t - t1)
  else if (t >=? ti1) && (t <=? t2) then - maxBank
  else if (t >=? t2) && (t <=? ti2) then - maxBank + maxRate * (t - t2)
  else minBank.

Definition smooth2 (maxRate maxAcc t t1 t2 minBank maxBank : R) : R :=
  let dt := maxRate / maxAcc in
  let dbank := 0.5 * (maxRate ^ 2) / maxAcc in
  let t1a := t1 + dt in
  let t1v := t1 + 2 * maxBank / maxRate in
  let t1d := t1v + dt in
  let t2a := t2 + dt in
  let t2v := t2 + (minBank + maxBank) / maxRate in
  let t2d := t2v + dt in
  if t <=? t1 then maxBank
  else if (t >? t1) && (t <=? t1a)
    then maxBank - 0.5 * maxAcc * (t - t1) ^ 2
  else if (t >? t1a) && (t <=? t1v)
    then maxBank - dbank - maxRate * (t - t1a)
  else if (t >? t1v) && (t <=? t1d)
    then dbank - maxBank - maxRate * (t - t1v) + 0.5 * maxAcc * (t - t1v) ^ 2
  else if (t >? t1d) && (t <=? t2) then - maxBank
  else if (t >? t2) && (t <=? t2a)
    then - maxBank + 0.5 * maxAcc * (t - t2) ^ 2
  else if (t >? t2a) && (t <=? t2v)
    then dbank - maxBank + maxRate * (t - t2a)
  else if (t >? t2v) && (t <=? t2d)
    then minBank - dbank + maxRate * (t - t2v) - 0.5 * maxAcc * (t - t2v) ^ 2
  else minBank.

(** The slope of [smooth2 4 1]: the bank rate in units where the
    acceleration limit is [1] and the rate limit [4]. *)
Definition rate2 (t t1 t2 mn mx : R) : R :=
  let t1a := t1 + 4 / 1 in
  let t1v := t1 + 2 * mx / 4 in
  let t1d := t1v + 4 / 1 in
  let t2a := t2 + 4 / 1 in
  let t2v := t2 + (mn + mx) / 4 in
  let t2d := t2v + 4 / 1 in
  if t <=? t1 then 0
  else if (t >? t1) && (t <=? t1a) then - (t - t1)
  else if (t >? t1a) && (t <=? t1v) then - 4
  else if (t >? t1v) && (t <=? t1d) then - 4 + (t - t1v)
  else if (t >? t1d) && (t <=? t2) then 0
  else if (t >? t2) && (t <=? t2a) then t - t2
  else if (t >? t2a) && (t <=? t2v) then 4
  else if (t >? t2v) && (t <=? t2d) then 4 - (t - t2v)
  else 0.

(** A sequence whose every entry is at most the next. *)
Fixpoint nondecreasing (l : list R) : Prop :=
  match l with
  | a :: ((b :: _) as tl) => a <= b /\ nondecreasing tl
  | _ => True
  end.



Definition sample_entry_model : EntryModel :=
  {| entry_dynamics := fun _ x _ => inr x;
     entry_altitude_km := fun r => (r - 3397000) / 1000;
     planet_range := fun lon0 lat0 psi0 lonc latc => (lonc - lon0, latc - lat0) |}.

Definition sample_target : Target := {| DR := 1; CR := 0 |}.

(** An integrator that stays at the initial state, a trigger at the first
    row and a search that answers with its initial guess. *)
Definition sample_odeint (f : list R -> R -> py (list R)) (x0 time : list R)
  : py (list (list R)) := inr [x0].

Definition sample_findTriggerPoint (X : list (list R)) (time : list R) : Z :=
  1%Z.

Definition sample_search (f : list R -> py R) (guess : list R)
  : py (list R) := inr guess.

(** * Properties *)

(** ** Comparisons *)

Lemma Rle_b_true x y : (x <=? y) = true <-> x <= y.
Proof. unfold Rle_b; destruct (Rle_dec x y); split; intros; try easy. Qed.

Lemma Rle_b_false x y : (x <=? y) = false <-> y < x.
Proof.
  unfold Rle_b; destruct (Rle_dec x y); split; intros; try easy; lra.
Qed.

Lemma Rlt_b_true x y : (x <? y) = true <-> x < y.
Proof. unfold Rlt_b; destruct (Rlt_dec x y); split; intros; try easy. Qed.

Lemma Rlt_b_false x y : (x <? y) = false <-> y <= x.
Proof.
  unfold Rlt_b; destruct (Rlt_dec x y); split; intros; try easy; lra.
Qed.

(** Case analysis on the next comparison of the goal, keeping the
    branches that the hypotheses allow. *)
Ltac cmp_case :=
  match goal with
  | |- context [Rle_b ?x ?y] =>
      let H := fresh "C" in
      destruct (Rle_b x y) eqn:H;
      [apply Rle_b_true in H | apply Rle_b_false in H]
  | |- context [Rlt_b ?x ?y] =>
      let H := fresh "C" in
      destruct (Rlt_b x y) eqn:H;
      [apply Rlt_b_true in H | apply Rlt_b_false in H]
  end; cbn [andb orb negb].

Lemma truthy_false x : truthy x = false <-> x = 0.
Proof. unfold truthy; destruct (Req_dec_T x 0); split; intros; easy. Qed.

Lemma truthy_true x : truthy x = true <-> x <> 0.
Proof. unfold truthy; destruct (Req_dec_T x 0); split; intros; easy. Qed.

(** ** The feasibility penalty *)

(** Twice the positive part: [s + |s|]. *)
Lemma plus_abs s : s + Rabs s = 2 * Rmax s 0.
Proof.
  unfold Rabs, Rmax; destruct (Rcase_abs s), (Rle_dec s 0); lra.
Qed.

Lemma abs_minus s : Rabs s - s = 2 * Rmax (- s) 0.
Proof.
  unfold Rabs, Rmax; destruct (Rcase_abs s), (Rle_dec (- s) 0); lra.
Qed.

Lemma violation_nonneg t1 t2 t3 : 0 <= violation t1 t2 t3.
Proof.
  unfold violation.
  pose proof (Rmax_r (t1 - t2) 0). pose proof (Rmax_r (t2 - t3) 0).
  pose proof (Rmax_r (- t1) 0). pose proof (Rmax_r (- t2) 0).
  pose proof (Rmax_r (- t3) 0). lra.
Qed.

Lemma violation_zero t1 t2 t3 :
  violation t1 t2 t3 = 0 <-> 0 <= t1 /\ t1 <= t2 /\ t2 <= t3.
Proof.
  unfold violation, Rmax.
  destruct (Rle_dec (t1 - t2) 0), (Rle_dec (t2 - t3) 0), (Rle_dec (- t1) 0),
    (Rle_dec (- t2) 0), (Rle_dec (- t3) 0); split; intros; lra.
Qed.

(** The cost before thresholding, on three switch times. *)
Lemma checkFeasibility_3 t1 t2 t3 :
  checkFeasibility [t1; t2; t3] (-1)
  = if truthy (violation t1 t2 t3 * 1e5)
    then Rmax (violation t1 t2 t3 * 1e5) 1e7 else 0.
Proof.
  unfold checkFeasibility, Np.scale, Np.diff, Np.add, Np.sub, Np.abs, Np.sum.
  cbn [map Np.zipWith fold_left].
  rewrite !plus_abs, !abs_minus.
  replace (-1 * (t2 - t1)) with (t1 - t2) by ring.
  replace (-1 * (t3 - t2)) with (t2 - t3) by ring.
  replace (0 + 2 * Rmax (t1 - t2) 0 + 2 * Rmax (t2 - t3) 0 +
           (0 + 2 * Rmax (- t1) 0 + 2 * Rmax (- t2) 0 + 2 * Rmax (- t3) 0))
    with (violation t1 t2 t3) by (unfold violation; ring).
  reflexivity.
Qed.

(** The initial guesses of [Optimize] are feasible, in the time and in
    the velocity parametrisation. *)
Example checkFeasibility_time_guess : check_time [50; 100; 133] = 0.
Proof.
  unfold check_time. rewrite checkFeasibility_3.
  replace (violation 50 100 133) with 0
    by (symmetry; apply violation_zero; lra).
  replace (truthy (0 * 1e5)) with false
    by (symmetry; apply truthy_false; lra).
  reflexivity.
Qed.

Example checkFeasibility_velocity_guess :
  check_velocity [-5100; -4500; -2500] = 0.
Proof.
  unfold check_velocity, checkFeasibility, Np.scale, Np.diff, Np.add, Np.sub,
    Np.abs, Np.sum.
  cbn [map Np.zipWith fold_left].
  rewrite !plus_abs, !abs_minus.
  match goal with |- context [truthy ?c] =>
    replace c with 0;
      [replace (truthy 0) with false
         by (symmetry; apply truthy_false; reflexivity);
       reflexivity|]
  end.
  unfold Rmax.
  repeat match goal with |- context [Rle_dec ?a ?b] =>
    destruct (Rle_dec a b) end; lra.
Qed.

(** The penalty never decreases when the violation grows; it is flat at
    [1e7] while the violation stays below [100]. *)
Lemma checkFeasibility_monotone t1 t2 t3 s1 s2 s3 :
  violation t1 t2 t3 <= violation s1 s2 s3 ->
  checkFeasibility [t1; t2; t3] (-1) <= checkFeasibility [s1; s2; s3] (-1).
Proof.
  intros Hle. rewrite !checkFeasibility_3.
  pose proof (violation_nonneg t1 t2 t3) as Ht.
  pose proof (violation_nonneg s1 s2 s3) as Hs.
  destruct (truthy (violation t1 t2 t3 * 1e5)) eqn:Et;
    destruct (truthy (violation s1 s2 s3 * 1e5)) eqn:Es.
  - apply Rmax_lub.
    + eapply Rle_trans; [|apply Rmax_l]. lra.
    + apply Rmax_r.
  - apply truthy_true in Et. apply truthy_false in Es. lra.
  - eapply Rle_trans; [|apply Rmax_r]. lra.
  - lra.
Qed.

(** C4 (as amended): with the default sign convention the penalty of
    three switch times is exactly [0] when the times are non-negative and
    ascending, ties included ([0 <= t1 <= t2 <= t3]); for every other
    input it is [max (1e5 * violation, 1e7)], hence at least [1e7]. *)
Theorem checkFeasibility_zero_iff_ascending (t1 t2 t3 : R) :
  (checkFeasibility [t1; t2; t3] (-1) = 0
   <-> 0 <= t1 /\ t1 <= t2 /\ t2 <= t3)
  /\ (checkFeasibility [t1; t2; t3] (-1) = 0
      \/ (checkFeasibility [t1; t2; t3] (-1)
          = Rmax (violation t1 t2 t3 * 1e5) 1e7
          /\ 1e7 <= checkFeasibility [t1; t2; t3] (-1))).
Proof.
  rewrite checkFeasibility_3.
  pose proof (violation_nonneg t1 t2 t3) as Hv.
  pose proof (violation_zero t1 t2 t3) as Hz.
  destruct (truthy (violation t1 t2 t3 * 1e5)) eqn:Et.
  - apply truthy_true in Et.
    pose proof (Rmax_r (violation t1 t2 t3 * 1e5) 1e7) as Hm.
    split.
    + split; intros H.
      * lra.
      * apply Hz in H. lra.
    + right. split; [reflexivity | exact Hm].
  - apply truthy_false in Et. split.
    + split; intros _; [apply Hz; lra | reflexivity].
    + left. reflexivity.
Qed.

(** C4 (as stated) fails: the tie [(1, 1, 2)] is not strictly ascending
    and yet has penalty [0]; and the penalty does not grow between the
    violations of [(2, 1, 3)] and [(3, 1, 3)]. *)
Lemma checkFeasibility_tie_is_free :
  ~ (1 < 1 /\ 1 < 2)
  /\ checkFeasibility [1; 1; 2] (-1) = 0
  /\ violation 2 1 3 < violation 3 1 3
  /\ checkFeasibility [2; 1; 3] (-1) = checkFeasibility [3; 1; 3] (-1).
Proof.
  assert (V1 : violation 1 1 2 = 0) by (apply violation_zero; lra).
  assert (V2 : violation 2 1 3 = 2).
  { unfold violation, Rmax.
    repeat match goal with |- context [Rle_dec ?a ?b] =>
      destruct (Rle_dec a b) end; lra. }
  assert (V3 : violation 3 1 3 = 4).
  { unfold violation, Rmax.
    repeat match goal with |- context [Rle_dec ?a ?b] =>
      destruct (Rle_dec a b) end; lra. }
  split; [lra|]. split; [|split].
  - rewrite checkFeasibility_3, V1.
    replace (truthy (0 * 1e5)) with false; [reflexivity|].
    symmetry. apply truthy_false. lra.
  - lra.
  - rewrite !checkFeasibility_3, V2, V3.
    replace (truthy (2 * 1e5)) with true
      by (symmetry; apply truthy_true; lra).
    replace (truthy (4 * 1e5)) with true
      by (symmetry; apply truthy_true; lra).
    unfold Rmax.
    repeat match goal with |- context [Rle_dec ?a ?b] =>
      destruct (Rle_dec a b) end; lra.
Qed.

(** ** The non-rotating 3-DOF equations of motion *)

Lemma cos_nonzero_of_small x : Rabs x < PI / 2 -> cos x <> 0.
Proof.
  intros H. apply Rabs_def2 in H. destruct H as [H1 H2].
  apply Rgt_not_eq. apply cos_gt_0; lra.
Qed.

Lemma pydiv_nonzero (x y : R) : y <> 0 -> pydiv x y = inr (x / y).
Proof.
  intros H. unfold pydiv. destruct (Req_dec_T y 0); [contradiction|].
  reflexivity.
Qed.

Lemma pydiv_zero (x y : R) : y = 0 -> pydiv x y = inl ZeroDivisionError.
Proof.
  intros H. unfold pydiv. destruct (Req_dec_T y 0); [|contradiction].
  reflexivity.
Qed.

Lemma square_nonzero (r : R) : r <> 0 -> r ^ 2 <> 0.
Proof. intros H. apply pow_nonzero. exact H. Qed.

(** C1 (as amended): on every state with [r <> 0], [v > 0],
    [|gamma| < pi/2], [|phi| < pi/2], where the speed of sound at the
    altitude and the vehicle's mass are not zero, and on every control
    [(sigma, throttle, _)], [__entry_3dof] returns the specification's
    equations, with [g = mu / r^2] and with lift and drag taken at
    altitude [r - R_planet] and Mach [v / a] and scaled by [lift_ratio]
    and [drag_ratio]; the denominators [v], [cos gamma] and [cos phi] of
    the equations are non-zero there. *)
Theorem entry_3dof_is_spec (self : Entry)
    (r theta phi v gamma psi s m t sigma throttle c : R) :
  0 < v -> Rabs gamma < PI / 2 -> Rabs phi < PI / 2 ->
  r <> 0 ->
  snd (atmosphere (planet self) (r - radius (planet self))) <> 0 ->
  mass (vehicle self) <> 0 ->
  entry_3dof self [r; theta; phi; v; gamma; psi; s; m] t [sigma; throttle; c]
  = inr (spec_3dof self r phi v gamma psi sigma throttle)
  /\ v <> 0 /\ cos gamma <> 0 /\ cos phi <> 0.
Proof.
  intros Hv Hg Hp Hr Ha Hm.
  pose proof (cos_nonzero_of_small _ Hg) as Cg.
  pose proof (cos_nonzero_of_small _ Hp) as Cp.
  assert (Vn : v <> 0) by lra.
  split; [|auto].
  unfold entry_3dof, spec_3dof, spec_lift, spec_drag, spec_gravity,
    spec_dynamic_pressure_term, spec_mach.
  cbn [unpack8 unpack3 bind ret Monad_py Monad_either].
  rewrite (pydiv_nonzero _ _ (square_nonzero r Hr)).
  cbn [bind ret Monad_py Monad_either].
  destruct (atmosphere (planet self) (r - radius (planet self))) as [rho a].
  cbn [fst snd] in *.
  rewrite (pydiv_nonzero v a Ha).
  cbn [bind ret Monad_py Monad_either].
  destruct (aerodynamic_coefficients (vehicle self) (v / a)) as [cD cL].
  cbn [fst snd].
  rewrite (pydiv_nonzero _ _ Hm).
  cbn [bind ret Monad_py Monad_either].
  rewrite !(pydiv_nonzero _ v Vn), !(pydiv_nonzero _ r Hr).
  cbn [bind ret Monad_py Monad_either].
  replace 0.5 with (/ 2) by lra.
  unfold Rdiv. cbn [pow]. rewrite ?Rmult_1_r, ?Rinv_mult.
  f_equal.
  repeat (apply f_equal2; [try ring |]).
  reflexivity.
Qed.

Lemma entry_3dof_is_spec_witness :
  entry_3dof sample_entry [3540000; 0; 0; 5505; 0; 0; 1000000; 8500] 0
    [0; 0; 0]
  = inr (spec_3dof sample_entry 3540000 0 5505 0 0 0 0)
  /\ 5505 <> 0 /\ cos 0 <> 0 /\ cos 0 <> 0.
Proof.
  apply (entry_3dof_is_spec sample_entry 3540000 0 0 5505 0 0 1000000 8500
           0 0 0 0).
  - lra.
  - rewrite Rabs_R0. pose proof PI_RGT_0. lra.
  - rewrite Rabs_R0. pose proof PI_RGT_0. lra.
  - lra.
  - cbn. lra.
  - cbn. lra.
Defined.

(** C1 (as stated) fails: a state at the planet's centre ([r = 0]) has
    [v > 0], [|gamma| < pi/2] and [|phi| < pi/2], and [mu/r**2] raises
    [ZeroDivisionError] on it. *)
Lemma entry_3dof_raises_at_zero_radius :
  (0 < 5505 /\ Rabs 0 < PI / 2)
  /\ entry_3dof sample_entry [0; 0; 0; 5505; 0; 0; 1000000; 8500] 0
       [0; 0; 0]
     = inl ZeroDivisionError.
Proof.
  split.
  - split; [lra|]. rewrite Rabs_R0. pose proof PI_RGT_0. lra.
  - unfold entry_3dof.
    cbn [unpack8 unpack3 bind ret Monad_py Monad_either].
    rewrite pydiv_zero by (cbn [pow]; ring). reflexivity.
Qed.

(** ** The rotating-planet model *)

(** C2 (the code at every input): [__entry_vinhs] never returns a
    derivative.  A state of the wrong length fails to unpack; otherwise
    [self.planet.omega] is multiplied on one line and called on the next,
    which raises [TypeError] for a number and for a function alike; and
    an attribute that supported both would let the call reach the
    unbound name [control_fun], a [NameError]. *)
Theorem entry_vinhs_always_raises (self : Entry) (x : list R) (t : R)
    (u : list R) :
  raises (entry_vinhs self x t u)
  /\ (List.length x = 8%nat ->
      entry_vinhs self x t u
      = inl (match as_number (omega (planet self)),
                   as_callable (omega (planet self)) with
             | Some _, Some _ => NameError
             | _, _ => TypeError
             end)).
Proof.
  unfold entry_vinhs, raises.
  destruct (unpack8 x) as [e | [[[[[[[r theta] phi] v] gamma] psi] s] m]] eqn:Ex.
  - split; [exists e; reflexivity|].
    intros Hlen. exfalso.
    do 9 (destruct x as [|? x]; try discriminate Hlen).
    discriminate Ex.
  - cbn [bind ret Monad_py Monad_either]. unfold times, call.
    destruct (as_number (omega (planet self))) as [w|];
      destruct (as_callable (omega (planet self))) as [f|];
      cbn [bind ret Monad_py Monad_either control_fun];
      (split; [eexists; reflexivity | intros _; reflexivity]).
Qed.

(** On the sample planet, whose rotation rate is a number. *)
Example entry_vinhs_sample :
  entry_vinhs sample_entry [3540000; 0; 0; 5505; 0; 0; 1000000; 8500] 0
    [0; 0; 0]
  = inl TypeError.
Proof. reflexivity. Qed.

(** ** Construction *)

Lemma dynamics_without_model (self : Entry) (u x : list R) (t : R) :
  dyn_model self = None ->
  forall maker, dynamics maker u self x t = inl AttributeError.
Proof.
  intros Hnone maker. unfold dynamics, call_dyn_model.
  destruct (powered maker); rewrite Hnone; reflexivity.
Qed.

(** C3 (as amended): [DegFreedom = 2] raises at construction (the class
    has no [__entry_2dof]); [DegFreedom = 3] selects the rotating or the
    non-rotating model; every other value prints the diagnostic and
    returns an instance with no model selected -- never another mode --
    whose dynamics function raises [AttributeError] once it is applied. *)
Theorem init_by_degrees_of_freedom (P : Planet) (V : EntryVehicle)
    (Coriolis : bool) (DegFreedom : Z) (Pw : bool) :
  (DegFreedom = 2%Z /\ init P V Coriolis DegFreedom Pw = ([], inl AttributeError))
  \/ (DegFreedom = 3%Z
      /\ init P V Coriolis DegFreedom Pw
         = ([], inr (set_dyn_model (bare_entry P V Pw)
                       (if Coriolis then entry_vinhs_method
                        else entry_3dof_method))))
  \/ (DegFreedom <> 2%Z /\ DegFreedom <> 3%Z
      /\ init P V Coriolis DegFreedom Pw
         = (["Inapproriate number of degrees of freedom."%string],
            inr (bare_entry P V Pw))
      /\ forall u x t,
           dynamics (bare_entry P V Pw) u (bare_entry P V Pw) x t
           = inl AttributeError).
Proof.
  unfold init. fold (bare_entry P V Pw).
  destruct (Z.eqb_spec DegFreedom 2) as [E2 | N2].
  - left. split; [exact E2 | reflexivity].
  - destruct (Z.eqb_spec DegFreedom 3) as [E3 | N3].
    + right; left. split; [exact E3|]. destruct Coriolis; reflexivity.
    + right; right. repeat split; try assumption.
      intros u x t. apply dynamics_without_model. reflexivity.
Qed.

(** C3 (as stated) fails: with [DegFreedom = 4] the constructor returns an
    instance, on which [altitude] works. *)
Lemma init_four_degrees_constructs :
  snd (init sample_planet sample_vehicle false 4 false)
  = inr (bare_entry sample_planet sample_vehicle false)
  /\ ~ raises (snd (init sample_planet sample_vehicle false 4 false))
  /\ altitude (bare_entry sample_planet sample_vehicle false) 3397001 false = 1.
Proof.
  split; [reflexivity|]. split.
  - intros [e He]. discriminate He.
  - unfold altitude, bare_entry, sample_planet. cbn. lra.
Qed.

(** ** The receding-horizon controller *)

Lemma index_0_cons {A : Type} (x : A) (l : list A) : Np.index (x :: l) 0 = inr x.
Proof.
  unfold Np.index. cbn [List.length Z.ltb Z.compare orb].
  rewrite Nat2Z.inj_succ.
  destruct (Z.leb_spec (Z.succ (Z.of_nat (List.length l))) 0) as [H | H].
  - exfalso. pose proof (Nat2Z.is_nonneg (List.length l)). lia.
  - reflexivity.
Qed.

Section ControllerProperties.

Variable sim_run :
  MPC.Options -> list R -> list R -> list R -> list (list R).
Variable minimize :
  (list R -> py R) -> list R -> list (R * R) -> list R.
Variable minimize_scalar : (R -> py R) -> R * R -> R.

(** The vector optimiser answers with an array of the shape of its
    initial guess. *)
Hypothesis minimize_shape :
  forall f guess bounds,
    List.length (minimize f guess bounds) = List.length guess.


End ControllerProperties.


(** ** The switch-time cost *)

(** Whatever the vector and the sign convention, the penalty is [0] or at
    least [1e7]. *)
Lemma checkFeasibility_range (T : list R) (sg : R) :
  checkFeasibility T sg = 0 \/ 1e7 <= checkFeasibility T sg.
Proof.
  unfold checkFeasibility.
  match goal with |- context [truthy ?c] => destruct (truthy c) end.
  - right. apply Rmax_r.
  - left. reflexivity.
Qed.

Section CostProperties.

Variable odeint :
  (list R -> R -> py (list R)) -> list R -> list R -> py (list (list R)).
Variable findTriggerPoint : list (list R) -> list R -> Z.

(** C6: [check] is [checkFeasibility] under a sign convention [sg],
    after a change of variable [pre] (identity for times, negation for
    velocities).  A non-zero penalty is returned as it is, with no
    integration; a zero penalty leads to one integration, and the cost
    of the resulting trajectory [X] is [- Wh h + sqrt ((DR - dr)^2 +
    (CR - cr)^2)] with [Wh = 0.8e-6], [h] the altitude in kilometres at
    the row before the trigger index, and [(dr, cr)] the down- and
    cross-range from the initial point to that row. *)
Theorem HEPCost_penalty_or_terminal_cost
    (pre : list R -> list R) (sg : R) (T x0 : list R)
    (entry : EntryModel) (target : Target)
    (bank : pyval -> list R -> py pyval) (getIV : list R -> R -> py R) :
  let check := fun T => checkFeasibility (pre T) sg in
  let cost := HEPCost odeint findTriggerPoint T x0 entry target bank getIV check in
  let time := Np.linspace 0 450 1000 in
  let hep := fun x t => iv <- getIV x t ;; bank (Scalar iv) T in
  (check T <> 0 /\ cost = ([], inr (check T)))
  \/ (check T = 0
      /\ fst cost = [Integrate]
      /\ forall X row r lon0 lat0 psi0 lonc latc,
           odeint (entry_dynamics entry hep) x0 time = inr X ->
           Np.index X (findTriggerPoint X time - 1) = inr row ->
           Np.index row 0 = inr r ->
           Np.index row 1 = inr lonc ->
           Np.index row 2 = inr latc ->
           Np.index x0 1 = inr lon0 ->
           Np.index x0 2 = inr lat0 ->
           Np.index x0 5 = inr psi0 ->
           snd cost
           = inr (- (entry_altitude_km entry r) * (0.8 * 1e-6)
                  + sqrt ((DR target
                           - fst (planet_range entry lon0 lat0 psi0 lonc latc)) ^ 2
                          + (CR target
                             - snd (planet_range entry lon0 lat0 psi0 lonc latc)) ^ 2))).
Proof.
  intros check cost time hep. subst cost. unfold HEPCost.
  fold check. fold time.
  destruct (checkFeasibility_range (pre T) sg) as [Z0 | Big].
  - right. fold (check T) in Z0. rewrite Z0.
    replace (0 >? 300) with false by (symmetry; apply Rlt_b_false; lra).
    split; [reflexivity|]. split; [reflexivity|].
    intros X row r lon0 lat0 psi0 lonc latc HX Hrow Hr Hlonc Hlatc H1 H2 H5.
    cbn [snd]. fold hep. rewrite HX.
    cbn [bind ret Monad_py Monad_either]. unfold terminal_cost.
    rewrite Hrow. cbn [bind ret Monad_py Monad_either].
    rewrite Hr. cbn [bind ret Monad_py Monad_either].
    rewrite H1, H2, H5. cbn [bind ret Monad_py Monad_either].
    rewrite Hlonc, Hlatc. cbn [bind ret Monad_py Monad_either].
    destruct (planet_range entry lon0 lat0 psi0 lonc latc) as [dr cr].
    reflexivity.
  - left. fold (check T) in Big.
    replace (check T >? 300) with true by (symmetry; apply Rlt_b_true; lra).
    split; [lra | reflexivity].
Qed.

End CostProperties.

(** ** Scalar and sequence arguments of the bank profiles *)

(** The two rectangular profiles answer a scalar with a scalar and a
    sequence with a sequence of the same length. *)
Lemma HEPBank_shape (t1 t2 t3 mn mx : R) :
  (forall t, HEPBank (Scalar t) t1 t2 t3 mn mx
             = Scalar (HEPBank_at t t1 t2 t3 mn mx))
  /\ (forall l, exists b, HEPBank (Seq l) t1 t2 t3 mn mx = Seq b
                          /\ List.length b = List.length l).
Proof.
  split.
  - intros t. reflexivity.
  - intros l. eexists. split; [reflexivity | apply length_map].
Qed.

Lemma HEPBankReduced_shape (t1 t2 mn mx : R) :
  (forall t, HEPBankReduced (Scalar t) t1 t2 mn mx
             = Scalar (HEPBankReduced_at t t1 t2 mn mx))
  /\ (forall l, exists b, HEPBankReduced (Seq l) t1 t2 mn mx = Seq b
                          /\ List.length b = List.length l).
Proof.
  split.
  - intros t. reflexivity.
  - intros l. eexists. split; [reflexivity | apply length_map].
Qed.

(** C7 (the code on a scalar argument): [HEPBankReducedSmooth] answers a
    sequence with a sequence of the same length, and a scalar with a
    one-element sequence -- never with a scalar, unlike [HEPBank] and
    [HEPBankReduced]. *)
Theorem HEPBankReducedSmooth_scalar_gives_list (t1 t2 mn mx : R) :
  (forall t, HEPBankReducedSmooth (Scalar t) t1 t2 mn mx
             = Seq [HEPBankReducedSmooth_at t t1 t2 mn mx])
  /\ (forall t x, HEPBankReducedSmooth (Scalar t) t1 t2 mn mx <> Scalar x)
  /\ (forall l, exists b, HEPBankReducedSmooth (Seq l) t1 t2 mn mx = Seq b
                          /\ List.length b = List.length l).
Proof.
  split; [|split].
  - intros t. reflexivity.
  - intros t x H. discriminate H.
  - intros l. eexists. split; [reflexivity | apply length_map].
Qed.

(** ** Powered flight *)

Lemma step_keeps_powered (self : Entry) (o : operation) :
  powered self = true -> powered (step self o) = true.
Proof. intros H. destruct o; cbn; auto. Qed.

Lemma run_keeps_powered (ops : list operation) :
  forall self, powered self = true -> powered (run self ops) = true.
Proof.
  unfold run. induction ops as [|o ops IH]; intros self H; cbn.
  - exact H.
  - apply IH. apply step_keeps_powered. exact H.
Qed.

(** C9: after [ignite], whatever operations follow, the instance is
    powered, and every dynamics function it produces is the selected
    model plus the thrust term: where the model returns
    [d0, ..., d7], the function returns that vector with the thrust
    contributions added to the speed, flight-path-angle and mass
    components (and [0] to the others). *)
Theorem ignite_is_permanent (self : Entry) (ops : list operation)
    (u : list R) :
  let e := run (ignite self) ops in
  powered e = true
  /\ dynamics e u
     = (fun now x t =>
          d <- call_dyn_model now x t u ;;
          th <- thrust_3dof now x u ;;
          Np.add_arrays d th)
  /\ forall now r theta phi v gamma psi s m sigma throttle thrustAngle t
            d0 d1 d2 d3 d4 d5 d6 d7,
       call_dyn_model now [r; theta; phi; v; gamma; psi; s; m] t
         [sigma; throttle; thrustAngle]
       = inr [d0; d1; d2; d3; d4; d5; d6; d7] ->
       dynamics e [sigma; throttle; thrustAngle] now
         [r; theta; phi; v; gamma; psi; s; m] t
       = inr [d0 + 0; d1 + 0; d2 + 0;
              d3 + ThrustApplied (vehicle now) * throttle
                     * cos (thrustAngle - gamma) / m;
              d4 + ThrustApplied (vehicle now) * throttle
                     * sin (thrustAngle - gamma) / (m * v);
              d5 + 0; d6 + 0; d7 + mdot (vehicle now) throttle].
Proof.
  intros e.
  assert (H : powered e = true) by (apply run_keeps_powered; reflexivity).
  split; [exact H|]. split.
  - unfold dynamics. rewrite H. reflexivity.
  - intros now r theta phi v gamma psi s m sigma throttle thrustAngle t
      d0 d1 d2 d3 d4 d5 d6 d7 Hd.
    unfold dynamics. rewrite H, Hd. reflexivity.
Qed.

(** ** Aerodynamic ratios and the batch force evaluator *)

Lemma aeroforces_from_same (e1 e2 : Entry) (v : list R) :
  same_but_ratios e1 e2 ->
  forall h i, aeroforces_from e1 h v i = aeroforces_from e2 h v i.
Proof.
  intros (Hp & Hv & _ & _) h.
  induction h as [|hi h IH]; intros i; cbn [aeroforces_from].
  - reflexivity.
  - rewrite Hp, Hv, IH. reflexivity.
Qed.

Lemma aeroforces_single (e : Entry) (r v : R) :
  aeroforces e [r] [v]
  = inr ([fst (nominal_forces e r v)], [snd (nominal_forces e r v)]).
Proof.
  unfold aeroforces, nominal_forces. cbn [map aeroforces_from].
  destruct (atmosphere (planet e) (r - radius (planet e))) as [rho a].
  change (Z.of_nat 0) with 0%Z. rewrite index_0_cons.
  cbn [bind ret Monad_py Monad_either fst snd].
  destruct (aerodynamic_coefficients (vehicle e) (v / a)) as [cD cL].
  reflexivity.
Qed.

Lemma nominal_forces_same (e1 e2 : Entry) (r v : R) :
  same_but_ratios e1 e2 -> nominal_forces e1 r v = nominal_forces e2 r v.
Proof.
  intros (Hp & Hv & _ & _). unfold nominal_forces. rewrite Hp, Hv.
  reflexivity.
Qed.

Lemma spec_forces_scale_nominal (e : Entry) (r v : R) :
  spec_lift e r v = fst (nominal_forces e r v) * lift_ratio e
  /\ spec_drag e r v = snd (nominal_forces e r v) * drag_ratio e.
Proof.
  unfold spec_lift, spec_drag, nominal_forces, spec_dynamic_pressure_term,
    spec_mach. cbn [fst snd pow].
  replace 0.5 with (/ 2) by lra. rewrite Rmult_1_r. split; reflexivity.
Qed.

(** C10: [aeroforces] returns the same lift and drag on two instances
    that differ only in their ratios, although the forces of the dynamics
    are those nominal forces times the ratios; and on two systems whose
    instances differ only in their ratios, and two composite states that
    agree on the navigated radius and speed, the filter is fed the same
    measured ratios (navigated over nominal force), whatever the current
    estimates in the states are. *)
Theorem aeroforces_ignore_ratios (sys sys' : System) (r v : list R)
    (x x' : list R) (t rr vv RL RD RL' RD' : R) :
  same_but_ratios (model sys) (model sys') ->
  same_but_ratios (nav sys) (nav sys') ->
  Np.index x 8 = inr rr -> Np.index x' 8 = inr rr ->
  Np.index x 11 = inr vv -> Np.index x' 11 = inr vv ->
  Np.index x 16 = inr RL -> Np.index x' 16 = inr RL' ->
  Np.index x 17 = inr RD -> Np.index x' 17 = inr RD' ->
  aeroforces (model sys) r v = aeroforces (model sys') r v
  /\ (spec_lift (model sys) rr vv
      = fst (nominal_forces (model sys) rr vv) * lift_ratio (model sys)
      /\ spec_drag (model sys) rr vv
         = snd (nominal_forces (model sys) rr vv) * drag_ratio (model sys))
  /\ exists mL mD,
       mL = fst (nominal_forces (nav sys) rr vv)
            / fst (nominal_forces (model sys) rr vv)
       /\ mD = snd (nominal_forces (nav sys) rr vv)
               / snd (nominal_forces (model sys) rr vv)
       /\ filterUpdate sys x t
          = inr [FadingMemory RL mL (gain sys); FadingMemory RD mD (gain sys)]
       /\ filterUpdate sys' x' t
          = inr [FadingMemory RL' mL (gain sys');
                 FadingMemory RD' mD (gain sys')].
Proof.
  intros Hm Hn H8 H8' H11 H11' H16 H16' H17 H17'.
  split; [|split].
  - unfold aeroforces. destruct Hm as (Hp & Hv & Hrest).
    rewrite Hp. apply aeroforces_from_same. repeat split; tauto.
  - apply spec_forces_scale_nominal.
  - eexists. eexists. split; [reflexivity|]. split; [reflexivity|].
    unfold filterUpdate.
    rewrite H8, H8', H11, H11', H16, H16', H17, H17'.
    cbn [bind ret Monad_py Monad_either].
    rewrite !aeroforces_single.
    cbn [bind ret Monad_py Monad_either].
    rewrite !index_0_cons.
    cbn [bind ret Monad_py Monad_either].
    rewrite (nominal_forces_same _ _ rr vv Hm).
    rewrite (nominal_forces_same _ _ rr vv Hn).
    split; reflexivity.
Qed.

Lemma aeroforces_ignore_ratios_witness :
  aeroforces (model sample_system) [3540000; 3500000] [5505; 5000]
  = aeroforces (model sample_system_ratios) [3540000; 3500000] [5505; 5000]
  /\ (spec_lift (model sample_system) 3540000 5505
      = fst (nominal_forces (model sample_system) 3540000 5505)
        * lift_ratio (model sample_system)
      /\ spec_drag (model sample_system) 3540000 5505
         = snd (nominal_forces (model sample_system) 3540000 5505)
           * drag_ratio (model sample_system))
  /\ exists mL mD,
       mL = fst (nominal_forces (nav sample_system) 3540000 5505)
            / fst (nominal_forces (model sample_system) 3540000 5505)
       /\ mD = snd (nominal_forces (nav sample_system) 3540000 5505)
               / snd (nominal_forces (model sample_system) 3540000 5505)
       /\ filterUpdate sample_system (sample_composite 1 1) 0
          = inr [FadingMemory 1 mL (gain sample_system);
                 FadingMemory 1 mD (gain sample_system)]
       /\ filterUpdate sample_system_ratios (sample_composite 2 3) 0
          = inr [FadingMemory 2 mL (gain sample_system_ratios);
                 FadingMemory 3 mD (gain sample_system_ratios)].
Proof.
  apply (aeroforces_ignore_ratios sample_system sample_system_ratios
           [3540000; 3500000] [5505; 5000]
           (sample_composite 1 1) (sample_composite 2 3) 0
           3540000 5505 1 1 2 3);
    try reflexivity; repeat split; reflexivity.
Defined.

(** ** Magnitude and rate of the bank profiles *)

(** Case analysis along the comparisons of a profile, dropping the
    branches the hypotheses exclude. *)
Ltac branches := repeat (cmp_case; try (exfalso; lra)).

Ltac same_branches :=
  repeat match goal with
         | |- context [if ?c then _ else _] => destruct c
         end.

(** *** Change of units *)

Lemma rect3_scale k t t1 t2 t3 mn mx :
  k <> 0 ->
  rect3 k t t1 t2 t3 (k * mn) (k * mx) = k * rect3 1 t t1 t2 t3 mn mx.
Proof.
  intros Hk. unfold rect3.
  replace ((k * mx + k * mn) / k) with ((mx + mn) / 1) by (field; exact Hk).
  replace (2 * (k * mx) / k) with (2 * mx / 1) by (field; exact Hk).
  same_branches; ring.
Qed.

Lemma rect2_scale k t t1 t2 mn mx :
  k <> 0 ->
  rect2 k t t1 t2 (k * mn) (k * mx) = k * rect2 1 t t1 t2 mn mx.
Proof.
  intros Hk. unfold rect2.
  replace ((k * mx + k * mn) / k) with ((mx + mn) / 1) by (field; exact Hk).
  replace (2 * (k * mx) / k) with (2 * mx / 1) by (field; exact Hk).
  same_branches; ring.
Qed.

Lemma smooth2_scale k t t1 t2 mn mx :
  k <> 0 ->
  smooth2 (4 * k) k t t1 t2 (k * mn) (k * mx) = k * smooth2 4 1 t t1 t2 mn mx.
Proof.
  intros Hk. unfold smooth2.
  replace (4 * k / k) with (4 / 1) by (field; exact Hk).
  replace (2 * (k * mx) / (4 * k)) with (2 * mx / 4) by (field; exact Hk).
  replace ((k * mn + k * mx) / (4 * k)) with ((mn + mx) / 4)
    by (field; exact Hk).
  replace (0.5 * (4 * k) ^ 2 / k) with (k * (0.5 * 4 ^ 2 / 1))
    by (field; exact Hk).
  same_branches; field.
Qed.

(** *** The profiles in their own units *)

Lemma rect3_unit_bound t1 t2 t3 mn mx a :
  0 <= mn <= mx -> Rabs (rect3 1 a t1 t2 t3 mn mx) <= mx.
Proof.
  intros H0. apply Rabs_le. unfold rect3. branches; lra.
Qed.

Lemma rect3_unit_lipschitz t1 t2 t3 mn mx a b :
  0 <= mn <= mx -> t1 + (mx + mn) <= t2 -> t2 + 2 * mx <= t3 ->
  0 <= a <= b ->
  Rabs (rect3 1 b t1 t2 t3 mn mx - rect3 1 a t1 t2 t3 mn mx) <= b - a.
Proof.
  intros H0 S1 S2 Hab. apply Rabs_le. unfold rect3. branches; lra.
Qed.

Lemma rect2_unit_bound t1 t2 mn mx a :
  0 <= mn <= mx -> Rabs (rect2 1 a t1 t2 mn mx) <= mx.
Proof.
  intros H0. apply Rabs_le. unfold rect2. branches; lra.
Qed.

Lemma rect2_unit_lipschitz t1 t2 mn mx a b :
  0 <= mn <= mx -> t1 + 2 * mx <= t2 -> a <= b ->
  Rabs (rect2 1 b t1 t2 mn mx - rect2 1 a t1 t2 mn mx) <= b - a.
Proof.
  intros H0 S1 Hab. apply Rabs_le. unfold rect2. branches; lra.
Qed.

Lemma smooth2_unit_bound t1 t2 mn mx a :
  0 <= mn <= mx -> 8 <= mx -> Rabs (smooth2 4 1 a t1 t2 mn mx) <= mx.
Proof.
  intros H0 H8. apply Rabs_le. unfold smooth2. branches; nra.
Qed.

Lemma smooth2_unit_lipschitz t1 t2 mn mx a b :
  0 <= mn <= mx -> 8 <= mx -> 16 <= mn + mx ->
  t1 + 2 * mx / 4 + 4 / 1 <= t2 -> a <= b ->
  Rabs (smooth2 4 1 b t1 t2 mn mx - smooth2 4 1 a t1 t2 mn mx)
  <= 4 * (b - a).
Proof.
  intros H0 H8 H16 S1 Hab. apply Rabs_le. unfold smooth2. branches; nra.
Qed.

(** First-order expansions of the smooth profile around the left and the
    right end of an interval, with remainder at most half the squared
    length. *)
Lemma smooth2_expand_left t1 t2 mn mx a b :
  0 <= mn <= mx -> 8 <= mx -> 16 <= mn + mx ->
  t1 + 2 * mx / 4 + 4 / 1 <= t2 -> a <= b ->
  - ((b - a) * (b - a) / 2)
  <= smooth2 4 1 b t1 t2 mn mx - smooth2 4 1 a t1 t2 mn mx
     - (b - a) * rate2 a t1 t2 mn mx
  <= (b - a) * (b - a) / 2.
Proof.
  intros H0 H8 H16 S1 Hab. unfold smooth2, rate2. branches; nra.
Qed.

Lemma smooth2_expand_right t1 t2 mn mx a b :
  0 <= mn <= mx -> 8 <= mx -> 16 <= mn + mx ->
  t1 + 2 * mx / 4 + 4 / 1 <= t2 -> a <= b ->
  - ((b - a) * (b - a) / 2)
  <= smooth2 4 1 b t1 t2 mn mx - smooth2 4 1 a t1 t2 mn mx
     - (b - a) * rate2 b t1 t2 mn mx
  <= (b - a) * (b - a) / 2.
Proof.
  intros H0 H8 H16 S1 Hab. unfold smooth2, rate2. branches; nra.
Qed.

Lemma smooth2_unit_second_difference t1 t2 mn mx a h :
  0 <= mn <= mx -> 8 <= mx -> 16 <= mn + mx ->
  t1 + 2 * mx / 4 + 4 / 1 <= t2 -> 0 <= h ->
  Rabs (smooth2 4 1 (a + 2 * h) t1 t2 mn mx
        - 2 * smooth2 4 1 (a + h) t1 t2 mn mx
        + smooth2 4 1 a t1 t2 mn mx) <= h * h.
Proof.
  intros H0 H8 H16 S1 Hh.
  pose proof (smooth2_expand_right t1 t2 mn mx a (a + h) H0 H8 H16 S1
                ltac:(lra)) as R.
  pose proof (smooth2_expand_left t1 t2 mn mx (a + h) (a + 2 * h) H0 H8 H16 S1
                ltac:(lra)) as L.
  replace (a + h - a) with h in R by ring.
  replace (a + 2 * h - (a + h)) with h in L by ring.
  apply Rabs_le. lra.
Qed.

(** *** Back to radians *)

Lemma radians_pos x : 0 < x -> 0 < Np.radians x.
Proof.
  intros Hx. unfold Np.radians. pose proof PI_RGT_0 as P.
  apply Rmult_lt_0_compat; lra.
Qed.

Lemma radians_ratio x y : y <> 0 -> Np.radians x / Np.radians y = x / y.
Proof.
  intros Hy. unfold Np.radians. pose proof PI_RGT_0 as P. field.
  split; [exact Hy | lra].
Qed.

Lemma radians_plus x y : Np.radians x + Np.radians y = Np.radians (x + y).
Proof. unfold Np.radians. ring. Qed.

Lemma radians_times c x : c * Np.radians x = Np.radians (c * x).
Proof. unfold Np.radians. ring. Qed.

Lemma scaled_abs_le k u bound :
  0 < k -> Rabs u <= bound -> Rabs (k * u) <= k * bound.
Proof.
  intros Hk Hu. rewrite Rabs_mult, (Rabs_pos_eq k) by lra.
  apply Rmult_le_compat_l; lra.
Qed.

Lemma quotients_ordered k mn mx :
  0 < k -> 0 <= mn <= mx -> 0 <= mn / k <= mx / k.
Proof.
  intros Hk [H0 H1]. pose proof (Rinv_0_lt_compat k Hk) as Hi.
  unfold Rdiv. split.
  - apply Rmult_le_pos; lra.
  - apply Rmult_le_compat_r; lra.
Qed.

Lemma HEPBank_at_units t t1 t2 t3 mn mx :
  HEPBank_at t t1 t2 t3 mn mx
  = Np.radians 20
    * rect3 1 t t1 t2 t3 (mn / Np.radians 20) (mx / Np.radians 20).
Proof.
  pose proof (radians_pos 20 ltac:(lra)) as Hk.
  rewrite <- rect3_scale by lra.
  change (HEPBank_at t t1 t2 t3 mn mx)
    with (rect3 (Np.radians 20) t t1 t2 t3 mn mx).
  f_equal; field; lra.
Qed.

Lemma HEPBankReduced_at_units t t1 t2 mn mx :
  HEPBankReduced_at t t1 t2 mn mx
  = Np.radians 20
    * rect2 1 t t1 t2 (mn / Np.radians 20) (mx / Np.radians 20).
Proof.
  pose proof (radians_pos 20 ltac:(lra)) as Hk.
  rewrite <- rect2_scale by lra.
  change (HEPBankReduced_at t t1 t2 mn mx)
    with (rect2 (Np.radians 20) t t1 t2 mn mx).
  f_equal; field; lra.
Qed.

Lemma HEPBankReducedSmooth_at_units t t1 t2 mn mx :
  HEPBankReducedSmooth_at t t1 t2 mn mx
  = Np.radians 5
    * smooth2 4 1 t t1 t2 (mn / Np.radians 5) (mx / Np.radians 5).
Proof.
  pose proof (radians_pos 5 ltac:(lra)) as Hk.
  rewrite <- smooth2_scale by lra.
  change (HEPBankReducedSmooth_at t t1 t2 mn mx)
    with (smooth2 (Np.radians 20) (Np.radians 5) t t1 t2 mn mx).
  replace (4 * Np.radians 5) with (Np.radians 20)
    by (unfold Np.radians; lra).
  f_equal; field; lra.
Qed.

Lemma smooth2_unit_bound_any t1 t2 mn mx a :
  0 <= mn <= mx -> 4 <= mx -> 8 <= mn + mx ->
  Rabs (smooth2 4 1 a t1 t2 mn mx) <= mx.
Proof.
  intros H0 H4 H8. apply Rabs_le. unfold smooth2. branches; nra.
Qed.

(** C8 (as amended): let [0 <= minBank <= maxBank].  Whatever the switch
    times, every sample of [HEPBank] and of [HEPBankReduced] has
    magnitude at most [maxBank], and so has every sample of
    [HEPBankReducedSmooth] when [dbank <= 2 maxBank] and
    [dbank <= minBank + maxBank].  When the switch times leave room for
    the transitions ([t1 + (maxBank + minBank) / maxRate <= t2] and
    [t2 + 2 maxBank / maxRate <= t3] for [HEPBank];
    [t1 + 2 maxBank / maxRate <= t2] for [HEPBankReduced];
    [t1 + 2 maxBank / maxRate + maxRate / maxAcc <= t2], with
    [dbank <= maxBank] and [2 dbank <= minBank + maxBank], for
    [HEPBankReducedSmooth]), two samples differ by at most [maxRate]
    times their distance, whatever the grid (non-negative times for
    [HEPBank]), and the second difference of the smooth profile at
    spacing [h] is at most [maxAcc h^2]. *)
Theorem bank_profiles_within_limits (t1 t2 t3 mn mx : R) :
  0 <= mn <= mx ->
  let maxRate := Np.radians 20 in
  let maxAcc := Np.radians 5 in
  let dt := maxRate / maxAcc in
  let dbank := 0.5 * maxRate ^ 2 / maxAcc in
  (forall t, Rabs (HEPBank_at t t1 t2 t3 mn mx) <= mx)
  /\ (forall t, Rabs (HEPBankReduced_at t t1 t2 mn mx) <= mx)
  /\ (dbank <= 2 * mx -> dbank <= mn + mx ->
      forall t, Rabs (HEPBankReducedSmooth_at t t1 t2 mn mx) <= mx)
  /\ (t1 + (mx + mn) / maxRate <= t2 -> t2 + 2 * mx / maxRate <= t3 ->
      forall a b, 0 <= a <= b ->
        Rabs (HEPBank_at b t1 t2 t3 mn mx - HEPBank_at a t1 t2 t3 mn mx)
        <= maxRate * (b - a))
  /\ (t1 + 2 * mx / maxRate <= t2 ->
      forall a b, a <= b ->
        Rabs (HEPBankReduced_at b t1 t2 mn mx
              - HEPBankReduced_at a t1 t2 mn mx)
        <= maxRate * (b - a))
  /\ (dbank <= mx -> 2 * dbank <= mn + mx ->
      t1 + 2 * mx / maxRate + dt <= t2 ->
      forall a b h, a <= b -> 0 <= h ->
        Rabs (HEPBankReducedSmooth_at b t1 t2 mn mx
              - HEPBankReducedSmooth_at a t1 t2 mn mx)
        <= maxRate * (b - a)
        /\ Rabs (HEPBankReducedSmooth_at (a + 2 * h) t1 t2 mn mx
                 - 2 * HEPBankReducedSmooth_at (a + h) t1 t2 mn mx
                 + HEPBankReducedSmooth_at a t1 t2 mn mx)
           <= maxAcc * h ^ 2).
Proof.
  intros H0 maxRate maxAcc dt dbank. subst dt dbank.
  pose proof (radians_pos 20 ltac:(lra)) as K20. fold maxRate in K20.
  pose proof (radians_pos 5 ltac:(lra)) as K5. fold maxAcc in K5.
  assert (E4 : maxRate = 4 * maxAcc)
    by (unfold maxRate, maxAcc, Np.radians; lra).
  assert (U3 : forall t, HEPBank_at t t1 t2 t3 mn mx
                         = maxRate * rect3 1 t t1 t2 t3 (mn / maxRate)
                                       (mx / maxRate))
    by (intros t; apply HEPBank_at_units).
  assert (U2 : forall t, HEPBankReduced_at t t1 t2 mn mx
                         = maxRate * rect2 1 t t1 t2 (mn / maxRate)
                                       (mx / maxRate))
    by (intros t; apply HEPBankReduced_at_units).
  assert (US : forall t, HEPBankReducedSmooth_at t t1 t2 mn mx
                         = maxAcc * smooth2 4 1 t t1 t2 (mn / maxAcc)
                                      (mx / maxAcc))
    by (intros t; apply HEPBankReducedSmooth_at_units).
  clearbody maxRate maxAcc.
  pose proof (quotients_ordered maxRate mn mx K20 H0) as Q20.
  pose proof (quotients_ordered maxAcc mn mx K5 H0) as Q5.
  assert (Ed : 0.5 * maxRate ^ 2 / maxAcc = 8 * maxAcc)
    by (rewrite E4; replace 0.5 with (/ 2) by lra; field; lra).
  assert (Edt : maxRate / maxAcc = 4) by (rewrite E4; field; lra).
  rewrite Ed, Edt.
  assert (Scale : forall c x, c * maxAcc <= x -> c <= x / maxAcc).
  { intros c x Hc. apply (Rmult_le_reg_l maxAcc); [exact K5|].
    replace (maxAcc * (x / maxAcc)) with x by (field; lra). lra. }
  split; [|split; [|split; [|split; [|split]]]].
  - intros t. rewrite U3.
    replace mx with (maxRate * (mx / maxRate)) at 2 by (field; lra).
    apply scaled_abs_le; [exact K20 | apply rect3_unit_bound; exact Q20].
  - intros t. rewrite U2.
    replace mx with (maxRate * (mx / maxRate)) at 2 by (field; lra).
    apply scaled_abs_le; [exact K20 | apply rect2_unit_bound; exact Q20].
  - intros Hd1 Hd2 t. rewrite US.
    replace mx with (maxAcc * (mx / maxAcc)) at 2 by (field; lra).
    apply scaled_abs_le; [exact K5|].
    apply smooth2_unit_bound_any; [exact Q5 | apply Scale; lra |].
    replace (mn / maxAcc + mx / maxAcc) with ((mn + mx) / maxAcc)
      by (field; lra).
    apply Scale; lra.
  - intros S1 S2 a b Hab.
    assert (S1' : t1 + (mx / maxRate + mn / maxRate) <= t2)
      by (replace (mx / maxRate + mn / maxRate) with ((mx + mn) / maxRate)
            by (field; lra); exact S1).
    assert (S2' : t2 + 2 * (mx / maxRate) <= t3)
      by (replace (2 * (mx / maxRate)) with (2 * mx / maxRate)
            by (field; lra); exact S2).
    rewrite !U3, <- Rmult_minus_distr_l.
    apply scaled_abs_le; [exact K20|].
    apply rect3_unit_lipschitz; assumption.
  - intros S1 a b Hab.
    assert (S1' : t1 + 2 * (mx / maxRate) <= t2)
      by (replace (2 * (mx / maxRate)) with (2 * mx / maxRate)
            by (field; lra); exact S1).
    rewrite !U2, <- Rmult_minus_distr_l.
    apply scaled_abs_le; [exact K20|].
    apply rect2_unit_lipschitz; assumption.
  - intros Hd Hd2 S1 a b h Hab Hh.
    assert (M8 : 8 <= mx / maxAcc) by (apply Scale; lra).
    assert (M16 : 16 <= mn / maxAcc + mx / maxAcc).
    { replace (mn / maxAcc + mx / maxAcc) with ((mn + mx) / maxAcc)
        by (field; lra). apply Scale; lra. }
    assert (S1' : t1 + 2 * (mx / maxAcc) / 4 + 4 / 1 <= t2).
    { replace (2 * (mx / maxAcc) / 4) with (2 * mx / maxRate)
        by (rewrite E4; field; lra). lra. }
    rewrite !US. split.
    + rewrite <- Rmult_minus_distr_l.
      replace (maxRate * (b - a)) with (maxAcc * (4 * (b - a)))
        by (rewrite E4; ring).
      apply scaled_abs_le; [exact K5|].
      apply smooth2_unit_lipschitz; assumption.
    + match goal with |- Rabs ?e <= _ =>
        replace e with
          (maxAcc * (smooth2 4 1 (a + 2 * h) t1 t2 (mn / maxAcc) (mx / maxAcc)
                     - 2 * smooth2 4 1 (a + h) t1 t2 (mn / maxAcc) (mx / maxAcc)
                     + smooth2 4 1 a t1 t2 (mn / maxAcc) (mx / maxAcc)))
          by ring
      end.
      replace (h ^ 2) with (h * h) by ring.
      apply scaled_abs_le; [exact K5|].
      apply smooth2_unit_second_difference; assumption.
Qed.

Lemma dbank_value : 0.5 * Np.radians 20 ^ 2 / Np.radians 5 = Np.radians 40.
Proof.
  unfold Np.radians. pose proof PI_RGT_0 as P.
  replace 0.5 with (/ 2) by lra. field. lra.
Qed.

Lemma defaults_ordered : 0 <= minBank_default <= maxBank_default.
Proof.
  unfold minBank_default, maxBank_default, Np.radians.
  pose proof PI_RGT_0 as P. lra.
Qed.

Lemma bank_profiles_within_limits_witness :
  Rabs (HEPBank_at 60 0 1 2 minBank_default maxBank_default)
  <= maxBank_default
  /\ Rabs (HEPBankReduced_at 60 0 1 minBank_default maxBank_default)
     <= maxBank_default
  /\ Rabs (HEPBankReducedSmooth_at 60 0 1 minBank_default maxBank_default)
     <= maxBank_default
  /\ Rabs (HEPBank_at 61 50 100 133 minBank_default maxBank_default
           - HEPBank_at 60 50 100 133 minBank_default maxBank_default)
     <= Np.radians 20 * (61 - 60)
  /\ Rabs (HEPBankReduced_at 61 50 100 minBank_default maxBank_default
           - HEPBankReduced_at 60 50 100 minBank_default maxBank_default)
     <= Np.radians 20 * (61 - 60)
  /\ Rabs (HEPBankReducedSmooth_at 61 50 100 minBank_default
             maxBank_default
           - HEPBankReducedSmooth_at 60 50 100 minBank_default
               maxBank_default)
     <= Np.radians 20 * (61 - 60)
  /\ Rabs (HEPBankReducedSmooth_at (60 + 2 * 1) 50 100 minBank_default
             maxBank_default
           - 2 * HEPBankReducedSmooth_at (60 + 1) 50 100 minBank_default
                   maxBank_default
           + HEPBankReducedSmooth_at 60 50 100 minBank_default
               maxBank_default)
     <= Np.radians 5 * 1 ^ 2.
Proof.
  pose proof (bank_profiles_within_limits 0 1 2 minBank_default
                maxBank_default defaults_ordered) as W0.
  pose proof (bank_profiles_within_limits 50 100 133 minBank_default
                maxBank_default defaults_ordered) as W.
  cbv zeta in W0, W.
  destruct W0 as (M3 & M2 & MS & _).
  destruct W as (_ & _ & _ & A & B & C).
  assert (R1 : (maxBank_default + minBank_default) / Np.radians 20 = 5).
  { unfold minBank_default, maxBank_default.
    rewrite radians_plus, radians_ratio by lra. lra. }
  assert (R2 : 2 * maxBank_default / Np.radians 20 = 17 / 2).
  { unfold maxBank_default.
    rewrite radians_times, radians_ratio by lra. lra. }
  assert (R3 : Np.radians 20 / Np.radians 5 = 4).
  { rewrite radians_ratio by lra. lra. }
  assert (Sm : forall P : Prop,
             (0.5 * Np.radians 20 ^ 2 / Np.radians 5 <= maxBank_default ->
              2 * (0.5 * Np.radians 20 ^ 2 / Np.radians 5)
              <= minBank_default + maxBank_default ->
              50 + 2 * maxBank_default / Np.radians 20
              + Np.radians 20 / Np.radians 5 <= 100 -> P) -> P).
  { intros P HP. apply HP; rewrite ?dbank_value, ?R2, ?R3;
      unfold minBank_default, maxBank_default, Np.radians;
      pose proof PI_RGT_0; lra. }
  split; [apply M3|]. split; [apply M2|]. split.
  { apply MS; rewrite dbank_value;
      unfold minBank_default, maxBank_default, Np.radians;
      pose proof PI_RGT_0; lra. }
  split; [apply A; rewrite ?R1, ?R2; lra|].
  split; [apply B; rewrite ?R2; lra|].
  apply Sm. intros H1 H2 H3.
  destruct (C H1 H2 H3 60 61 1 ltac:(lra) ltac:(lra)) as [C1 C2].
  split; [exact C1 | exact C2].
Defined.

(** C8 (as stated) fails: [(0, 1, 2)] is non-negative and strictly
    ascending, yet the default [HEPBank] profile drops by 80 degrees
    across [t = 5]: two samples [h <= 1] apart, on either side, differ by
    [radians 80], more than [maxRate * h], however small [h] is. *)
Lemma HEPBank_jumps_between_close_switches :
  (0 <= 0 /\ 0 < 1 /\ 1 < 2)
  /\ forall h, 0 < h <= 1 ->
       0 <= 5 - h / 2
       /\ Rabs (HEPBank_at (5 + h / 2) 0 1 2 minBank_default maxBank_default
                - HEPBank_at (5 - h / 2) 0 1 2 minBank_default
                    maxBank_default)
          = Np.radians 80
       /\ Np.radians 20 * h < Np.radians 80.
Proof.
  split; [lra|]. intros h Hh. split; [lra|]. split.
  - rewrite !HEPBank_at_units. unfold minBank_default, maxBank_default.
    rewrite !radians_ratio by lra.
    assert (A : rect3 1 (5 - h / 2) 0 1 2 (15 / 20) (85 / 20)
                = 85 / 20 - h / 2)
      by (unfold rect3; branches; lra).
    assert (B : rect3 1 (5 + h / 2) 0 1 2 (15 / 20) (85 / 20)
                = 5 / 20 - h / 2)
      by (unfold rect3; branches; lra).
    rewrite A, B.
    replace (Np.radians 20 * (5 / 20 - h / 2)
             - Np.radians 20 * (85 / 20 - h / 2))
      with (- Np.radians 80) by (unfold Np.radians; field).
    rewrite Rabs_Ropp. apply Rabs_pos_eq.
    apply Rlt_le, radians_pos. lra.
  - unfold Np.radians. pose proof PI_RGT_0 as P. nra.
Qed.

(** The call [HEPBankReducedSmooth(100.0, 71, 113)]: between the two
    switches the profile holds [- maxBank], and the scalar argument comes
    back as a one-element list. *)
Example HEPBankReducedSmooth_scalar_sample :
  HEPBankReducedSmooth (Scalar 100) 71 113 minBank_default maxBank_default
  = Seq [- maxBank_default].
Proof.
  unfold HEPBankReducedSmooth. cbn [map].
  rewrite HEPBankReducedSmooth_at_units.
  unfold minBank_default, maxBank_default.
  rewrite !radians_ratio by lra.
  assert (E : smooth2 4 1 100 71 113 (15 / 5) (85 / 5) = - 17)
    by (unfold smooth2; branches; lra).
  rewrite E. do 2 f_equal. unfold Np.radians. lra.
Qed.

(** The same call on [HEPBank] with the switch times of [testNMPC]'s
    nominal profile returns a scalar. *)
Example HEPBank_scalar_sample :
  HEPBank (Scalar 0) 50 100 133 minBank_default maxBank_default
  = Scalar (- minBank_default).
Proof.
  unfold HEPBank. cbn [map]. f_equal.
  unfold HEPBank_at. branches; lra.
Qed.

(** * Further properties of the code *)

(** ** Indexing *)

Lemma index_in_range {A : Type} (l : list A) (i : nat) (x : A) :
  nth_error l i = Some x -> Np.index l (Z.of_nat i) = inr x.
Proof.
  intros H. unfold Np.index.
  assert (Hi : (i < List.length l)%nat)
    by (apply nth_error_Some; rewrite H; discriminate).
  destruct (Z.ltb_spec (Z.of_nat i) 0) as [Hn | _]; [lia|].
  destruct (Z.ltb_spec (Z.of_nat i) 0) as [Hn | _]; [lia|].
  destruct (Z.leb_spec (Z.of_nat (List.length l)) (Z.of_nat i)) as [Hn | _];
    [lia|].
  cbn [orb]. rewrite Nat2Z.id, H. reflexivity.
Qed.

Lemma index_past_end {A : Type} (l : list A) (i : nat) :
  (List.length l <= i)%nat -> Np.index l (Z.of_nat i) = inl IndexError.
Proof.
  intros H. unfold Np.index.
  destruct (Z.ltb_spec (Z.of_nat i) 0) as [Hn | _]; [lia|].
  destruct (Z.ltb_spec (Z.of_nat i) 0) as [Hn | _]; [lia|].
  destruct (Z.leb_spec (Z.of_nat (List.length l)) (Z.of_nat i)) as [_ | Hn];
    [|lia].
  reflexivity.
Qed.

Lemma index_last {A : Type} (l : list A) (x : A) :
  Np.index (l ++ [x]) (-1) = inr x.
Proof.
  unfold Np.index. rewrite length_app. cbn [List.length].
  change (-1 <? 0)%Z with true. cbv iota.
  replace (-1 + Z.of_nat (List.length l + 1))%Z
    with (Z.of_nat (List.length l)) by lia.
  destruct (Z.ltb_spec (Z.of_nat (List.length l)) 0) as [Hn | _]; [lia|].
  destruct (Z.leb_spec (Z.of_nat (List.length l + 1))
              (Z.of_nat (List.length l))) as [Hn | _]; [lia|].
  cbn [orb]. rewrite Nat2Z.id, nth_error_app2, Nat.sub_diag by lia.
  reflexivity.
Qed.

Lemma index_last_is_length {A : Type} (l : list A) :
  l <> [] -> Np.index l (-1) = Np.index l (Z.of_nat (List.length l) - 1).
Proof.
  intros H. destruct (exists_last H) as (l' & x & ->).
  rewrite index_last, length_app. cbn [List.length].
  replace (Z.of_nat (List.length l' + 1) - 1)%Z
    with (Z.of_nat (List.length l')) by lia.
  symmetry. apply index_in_range.
  rewrite nth_error_app2, Nat.sub_diag by lia. reflexivity.
Qed.

(** ** The dynamics functions *)

Lemma unpack8_shape (x : list R) :
  (List.length x = 8%nat -> exists a, unpack8 x = inr a)
  /\ (List.length x <> 8%nat -> unpack8 x = inl ValueError).
Proof.
  split; intros H.
  - do 9 (destruct x as [|? x]; try discriminate H). eexists. reflexivity.
  - do 9 (destruct x as [|? x]; try reflexivity). exfalso. apply H.
    reflexivity.
Qed.

Lemma unpack3_shape (u : list R) :
  (List.length u = 3%nat -> exists a, unpack3 u = inr a)
  /\ (List.length u <> 3%nat -> unpack3 u = inl ValueError).
Proof.
  split; intros H.
  - do 4 (destruct u as [|? u]; try discriminate H). eexists. reflexivity.
  - do 4 (destruct u as [|? u]; try reflexivity). exfalso. apply H.
    reflexivity.
Qed.

Lemma entry_3dof_returns (self : Entry)
    (r theta phi v gamma psi s m t sigma throttle c : R) :
  r <> 0 -> v <> 0 ->
  snd (atmosphere (planet self) (r - radius (planet self))) <> 0 ->
  mass (vehicle self) <> 0 ->
  exists d0 d1 d2 d3 d4 d5 d6,
    entry_3dof self [r; theta; phi; v; gamma; psi; s; m] t
      [sigma; throttle; c]
    = inr [d0; d1; d2; d3; d4; d5; d6; mdot (vehicle self) throttle].
Proof.
  intros Hr Hv Ha Hm. unfold entry_3dof.
  cbn [unpack8 unpack3 bind ret Monad_py Monad_either].
  rewrite (pydiv_nonzero _ (r ^ 2)) by (apply square_nonzero; exact Hr).
  cbn [bind ret Monad_py Monad_either].
  destruct (atmosphere _ _) as [rho a]. cbn [snd] in Ha.
  rewrite (pydiv_nonzero v a Ha). cbn [bind ret Monad_py Monad_either].
  destruct (aerodynamic_coefficients _ _) as [cD cL].
  rewrite (pydiv_nonzero _ (mass (vehicle self)) Hm).
  cbn [bind ret Monad_py Monad_either].
  rewrite !(pydiv_nonzero _ v Hv), !(pydiv_nonzero _ r Hr).
  cbn [bind ret Monad_py Monad_either].
  do 7 eexists. reflexivity.
Qed.

Lemma entry_3dof_zero_divisor (self : Entry)
    (r theta phi v gamma psi s m t sigma throttle c : R) :
  r = 0 \/ v = 0
  \/ snd (atmosphere (planet self) (r - radius (planet self))) = 0
  \/ mass (vehicle self) = 0 ->
  entry_3dof self [r; theta; phi; v; gamma; psi; s; m] t [sigma; throttle; c]
  = inl ZeroDivisionError.
Proof.
  intros H. unfold entry_3dof.
  cbn [unpack8 unpack3 bind ret Monad_py Monad_either].
  destruct (Req_dec_T r 0) as [Hr | Hr].
  { rewrite (pydiv_zero _ (r ^ 2)) by (rewrite Hr; ring). reflexivity. }
  rewrite (pydiv_nonzero _ (r ^ 2)) by (apply square_nonzero; exact Hr).
  cbn [bind ret Monad_py Monad_either].
  destruct (atmosphere _ _) as [rho a]. cbn [snd] in H.
  destruct (Req_dec_T a 0) as [Ha | Ha].
  { rewrite (pydiv_zero v a Ha). reflexivity. }
  rewrite (pydiv_nonzero v a Ha). cbn [bind ret Monad_py Monad_either].
  destruct (aerodynamic_coefficients _ _) as [cD cL].
  destruct (Req_dec_T (mass (vehicle self)) 0) as [Hm | Hm].
  { rewrite (pydiv_zero _ (mass (vehicle self)) Hm). reflexivity. }
  rewrite (pydiv_nonzero _ (mass (vehicle self)) Hm).
  cbn [bind ret Monad_py Monad_either].
  assert (Hv : v = 0) by (destruct H as [H | [H | [H | H]]]; tauto).
  rewrite (pydiv_zero _ v Hv). reflexivity.
Qed.

Lemma divisors_nonzero_dec (self : Entry) (x : list R) :
  divisors_nonzero self x \/ ~ divisors_nonzero self x.
Proof.
  do 9 (destruct x as [|? x]; try (right; intros []; fail)).
  cbn [divisors_nonzero].
  destruct (Req_dec_T r 0); [right; tauto|].
  destruct (Req_dec_T r2 0); [right; tauto|].
  destruct (Req_dec_T
              (snd (atmosphere (planet self) (r - radius (planet self)))) 0);
    [right; tauto|].
  destruct (Req_dec_T (mass (vehicle self)) 0); [right; tauto|].
  left. tauto.
Qed.

Lemma entry_3dof_on_shapes (self : Entry) (x : list R) (t : R) (u : list R) :
  List.length u = 3%nat -> divisors_nonzero self x ->
  exists d, entry_3dof self x t u = inr d /\ List.length d = 8%nat.
Proof.
  intros Hu Hx.
  do 9 (destruct x as [|? x]; try (destruct Hx; fail)).
  do 4 (destruct u as [|? u]; try discriminate Hu).
  destruct Hx as (Hr & Hv & Ha & Hm).
  destruct (entry_3dof_returns self r r0 r1 r2 r3 r4 r5 r6 t r7 r8 r9
              Hr Hv Ha Hm) as (d0 & d1 & d2 & d3 & d4 & d5 & d6 & E).
  rewrite E. eexists. split; reflexivity.
Qed.

(** X1: [__entry_3dof] raises [ValueError] unless the state has eight
    entries and the control three.  On these shapes it returns, and then
    eight derivatives, exactly when the radius, the speed, the speed of
    sound at the state's altitude and the vehicle's mass are all non-zero;
    when one of them is zero, a float division raises
    [ZeroDivisionError]. *)
Theorem entry_3dof_outcome_by_shape_and_divisors (self : Entry) (x : list R)
    (t : R) (u : list R) :
  ((List.length x <> 8%nat \/ List.length u <> 3%nat)
   /\ entry_3dof self x t u = inl ValueError)
  \/ (List.length x = 8%nat /\ List.length u = 3%nat
      /\ divisors_nonzero self x
      /\ exists d, entry_3dof self x t u = inr d /\ List.length d = 8%nat)
  \/ (List.length x = 8%nat /\ List.length u = 3%nat
      /\ ~ divisors_nonzero self x
      /\ entry_3dof self x t u = inl ZeroDivisionError).
Proof.
  destruct (Nat.eq_dec (List.length x) 8) as [Hx | Hx].
  - destruct (Nat.eq_dec (List.length u) 3) as [Hu | Hu].
    + right. destruct (divisors_nonzero_dec self x) as [Hd | Hd].
      * left. split; [exact Hx|]. split; [exact Hu|]. split; [exact Hd|].
        apply entry_3dof_on_shapes; assumption.
      * right. split; [exact Hx|]. split; [exact Hu|]. split; [exact Hd|].
        do 9 (destruct x as [|? x]; try discriminate Hx).
        do 4 (destruct u as [|? u]; try discriminate Hu).
        apply entry_3dof_zero_divisor. cbn [divisors_nonzero] in Hd.
        destruct (Req_dec_T r 0); [tauto|].
        destruct (Req_dec_T r2 0); [tauto|].
        destruct (Req_dec_T
                    (snd (atmosphere (planet self)
                            (r - radius (planet self)))) 0); [tauto|].
        destruct (Req_dec_T (mass (vehicle self)) 0); [tauto|].
        exfalso. apply Hd. tauto.
    + left. split; [right; exact Hu|]. unfold entry_3dof.
      destruct (proj1 (unpack8_shape x) Hx)
        as ([[[[[[[r theta] phi] v] gamma] psi] s] m] & Ex).
      rewrite Ex, (proj2 (unpack3_shape u) Hu). reflexivity.
  - left. split; [left; exact Hx|]. unfold entry_3dof.
    rewrite (proj2 (unpack8_shape x) Hx). reflexivity.
Qed.

(** X2: In powered flight over the non-rotating model, on a state whose
    radius, speed, speed of sound and vehicle mass are non-zero, the mass
    derivative is the vehicle's mass flow counted twice: once by the model
    and once by the thrust term; the position, heading and range
    derivatives are those of the model. *)
Theorem powered_3dof_counts_mass_flow_twice (self : Entry)
    (r theta phi v gamma psi s m t sigma throttle thrustAngle : R) :
  powered self = true ->
  dyn_model self = Some entry_3dof_method ->
  r <> 0 -> v <> 0 ->
  snd (atmosphere (planet self) (r - radius (planet self))) <> 0 ->
  mass (vehicle self) <> 0 ->
  exists d0 d1 d2 d3 d4 d5 d6,
    entry_3dof self [r; theta; phi; v; gamma; psi; s; m] t
      [sigma; throttle; thrustAngle]
    = inr [d0; d1; d2; d3; d4; d5; d6; mdot (vehicle self) throttle]
    /\ dynamics self [sigma; throttle; thrustAngle] self
         [r; theta; phi; v; gamma; psi; s; m] t
       = inr [d0 + 0; d1 + 0; d2 + 0;
              d3 + ThrustApplied (vehicle self) * throttle
                     * cos (thrustAngle - gamma) / m;
              d4 + ThrustApplied (vehicle self) * throttle
                     * sin (thrustAngle - gamma) / (m * v);
              d5 + 0; d6 + 0;
              mdot (vehicle self) throttle + mdot (vehicle self) throttle].
Proof.
  intros Hp Hd Hr Hv Ha Hm. unfold dynamics, call_dyn_model. rewrite Hp, Hd.
  destruct (entry_3dof_returns self r theta phi v gamma psi s m t sigma
              throttle thrustAngle Hr Hv Ha Hm)
    as (d0 & d1 & d2 & d3 & d4 & d5 & d6 & E).
  exists d0, d1, d2, d3, d4, d5, d6. rewrite E. split; [reflexivity|].
  unfold thrust_3dof.
  cbn [unpack8 unpack3 bind ret Monad_py Monad_either]. reflexivity.
Qed.

Lemma powered_3dof_counts_mass_flow_twice_witness :
  exists d0 d1 d2 d3 d4 d5 d6,
    entry_3dof (ignite sample_entry)
      [3540000; 0; 0; 5505; 0; 0; 1000000; 8500] 0 [0; 1; 0]
    = inr [d0; d1; d2; d3; d4; d5; d6;
           mdot (vehicle (ignite sample_entry)) 1]
    /\ dynamics (ignite sample_entry) [0; 1; 0] (ignite sample_entry)
         [3540000; 0; 0; 5505; 0; 0; 1000000; 8500] 0
       = inr [d0 + 0; d1 + 0; d2 + 0;
              d3 + ThrustApplied (vehicle (ignite sample_entry)) * 1
                     * cos (0 - 0) / 8500;
              d4 + ThrustApplied (vehicle (ignite sample_entry)) * 1
                     * sin (0 - 0) / (8500 * 5505);
              d5 + 0; d6 + 0;
              mdot (vehicle (ignite sample_entry)) 1
              + mdot (vehicle (ignite sample_entry)) 1].
Proof.
  apply (powered_3dof_counts_mass_flow_twice (ignite sample_entry)
           3540000 0 0 5505 0 0 1000000 8500 0 0 1 0);
    try reflexivity; cbn; lra.
Defined.

Lemma call_dyn_model_ignores_powered (self : Entry) (x : list R) (t : R)
    (u : list R) :
  call_dyn_model (ignite self) x t u = call_dyn_model self x t u.
Proof. unfold call_dyn_model. cbn. destruct (dyn_model self) as [[|]|]; reflexivity. Qed.

(** X3: A dynamics function made before [ignite] stays unpowered when it is
    applied after [ignite]; a change of the ratios made after the function
    was produced does reach it. *)
Theorem dynamics_closure_fixes_mode_not_ratios (self : Entry) (u x : list R)
    (t LR DR : R) :
  powered self = false ->
  dynamics self u (ignite self) x t = call_dyn_model self x t u
  /\ dynamics self u (update_ratios self LR DR) x t
     = dynamics (update_ratios self LR DR) u (update_ratios self LR DR) x t.
Proof.
  intros Hp. unfold dynamics. cbn [update_ratios powered]. rewrite Hp.
  split; [apply call_dyn_model_ignores_powered | reflexivity].
Qed.

Lemma dynamics_closure_fixes_mode_not_ratios_witness :
  dynamics sample_entry [0; 0; 0] (ignite sample_entry)
    [3540000; 0; 0; 5505; 0; 0; 1000000; 8500] 0
  = call_dyn_model sample_entry [3540000; 0; 0; 5505; 0; 0; 1000000; 8500] 0
      [0; 0; 0]
  /\ dynamics sample_entry [0; 0; 0] (update_ratios sample_entry 2 3)
       [3540000; 0; 0; 5505; 0; 0; 1000000; 8500] 0
     = dynamics (update_ratios sample_entry 2 3) [0; 0; 0]
         (update_ratios sample_entry 2 3)
         [3540000; 0; 0; 5505; 0; 0; 1000000; 8500] 0.
Proof.
  apply (dynamics_closure_fixes_mode_not_ratios sample_entry [0; 0; 0]
           [3540000; 0; 0; 5505; 0; 0; 1000000; 8500] 0 2 3).
  reflexivity.
Defined.

Lemma entry_vinhs_raises (self : Entry) (x : list R) (t : R) (u : list R) :
  exists e, entry_vinhs self x t u = inl e.
Proof.
  unfold entry_vinhs.
  destruct (unpack8 x) as [e | [[[[[[[r theta] phi] v] gamma] psi] s] m]].
  - exists e. reflexivity.
  - cbn [bind ret Monad_py Monad_either]. unfold times, call.
    destruct (as_number (omega (planet self)));
      destruct (as_callable (omega (planet self)));
      cbn [bind ret Monad_py Monad_either control_fun]; eexists; reflexivity.
Qed.

(** X4: [Entry(Coriolis=True)] is constructed without any error, powered or
    not, and whatever operations follow, every dynamics function of the
    instance raises on every state, time and control. *)
Theorem coriolis_engine_constructs_but_never_runs (P : Planet)
    (V : EntryVehicle) (Pw : bool) :
  exists e,
    init P V true 3 Pw = ([], inr e)
    /\ forall ops u x t,
         raises (dynamics (run e ops) u (run e ops) x t).
Proof.
  set (e := set_dyn_model (bare_entry P V Pw) entry_vinhs_method).
  exists e. split; [reflexivity|].
  intros ops u x t.
  assert (Hd : forall ops e', dyn_model e' = Some entry_vinhs_method ->
               dyn_model (run e' ops) = Some entry_vinhs_method).
  { clear. intros ops. unfold run.
    induction ops as [|o ops IH]; intros e' H; cbn [fold_left];
      [exact H|].
    apply IH. destruct o; cbn; exact H. }
  specialize (Hd ops e eq_refl).
  destruct (entry_vinhs_raises (run e ops) x t u) as [err He].
  unfold raises, dynamics.
  destruct (powered (run e ops)); unfold call_dyn_model; rewrite Hd, He;
    exists err; reflexivity.
Qed.

(** ** The batch force evaluator *)

Lemma aeroforces_from_enough (self : Entry) (v : list R) :
  forall h i, (i + List.length h <= List.length v)%nat ->
    exists L D, aeroforces_from self h v i = inr (L, D)
                /\ List.length L = List.length h
                /\ List.length D = List.length h.
Proof.
  induction h as [|hi h IH]; intros i Hi; cbn [aeroforces_from].
  - exists [], []. repeat split.
  - cbn [List.length] in Hi.
    destruct (nth_error v i) as [vi|] eqn:Ev;
      [|apply nth_error_None in Ev; lia].
    destruct (atmosphere (planet self) hi) as [rho a].
    rewrite (index_in_range _ _ _ Ev).
    cbn [bind ret Monad_py Monad_either].
    destruct (aerodynamic_coefficients _ _) as [cD cL].
    destruct (IH (S i) ltac:(lia)) as (L & D & E & HL & HD).
    rewrite E. cbn [bind ret Monad_py Monad_either].
    eexists. eexists. split; [reflexivity|]. cbn [List.length]. lia.
Qed.

Lemma aeroforces_from_short (self : Entry) (v : list R) :
  forall h i, (i <= List.length v)%nat ->
    (List.length v < i + List.length h)%nat ->
    aeroforces_from self h v i = inl IndexError.
Proof.
  induction h as [|hi h IH]; intros i Hle Hi; cbn [aeroforces_from].
  - cbn [List.length] in Hi. lia.
  - cbn [List.length] in Hi.
    destruct (atmosphere (planet self) hi) as [rho a].
    destruct (nth_error v i) as [vi|] eqn:Ev.
    + assert (i < List.length v)%nat
        by (apply nth_error_Some; rewrite Ev; discriminate).
      rewrite (index_in_range _ _ _ Ev).
      cbn [bind ret Monad_py Monad_either].
      destruct (aerodynamic_coefficients _ _) as [cD cL].
      rewrite (IH (S i)) by lia. reflexivity.
    + apply nth_error_None in Ev. rewrite (index_past_end _ _ Ev).
      reflexivity.
Qed.

(** X5: [aeroforces(r, v)] returns one lift and one drag per radius when [v]
    has at least as many entries as [r] (the surplus is never read), and
    raises [IndexError] when [v] is shorter. *)
Theorem aeroforces_by_lengths (self : Entry) (r v : list R) :
  ((List.length r <= List.length v)%nat
   /\ exists L D, aeroforces self r v = inr (L, D)
                  /\ List.length L = List.length r
                  /\ List.length D = List.length r)
  \/ ((List.length v < List.length r)%nat
      /\ aeroforces self r v = inl IndexError).
Proof.
  unfold aeroforces.
  destruct (Nat.le_gt_cases (List.length r) (List.length v)) as [H | H].
  - left. split; [exact H|].
    destruct (aeroforces_from_enough self v
                (map (fun ri => ri - radius (planet self)) r) 0)
      as (L & D & E & HL & HD); [rewrite length_map; lia|].
    rewrite length_map in HL, HD. eauto.
  - right. split; [exact H|].
    apply aeroforces_from_short; [lia | rewrite length_map; lia].
Qed.

Lemma index_shift (v1 v2 : list R) (i : nat) :
  Np.index (v1 ++ v2) (Z.of_nat (List.length v1 + i))
  = Np.index v2 (Z.of_nat i).
Proof.
  destruct (nth_error v2 i) as [x|] eqn:E.
  - rewrite (index_in_range _ _ _ E). apply index_in_range.
    rewrite nth_error_app2 by lia.
    replace (List.length v1 + i - List.length v1)%nat with i by lia.
    exact E.
  - apply nth_error_None in E. rewrite (index_past_end _ _ E).
    apply index_past_end. rewrite length_app. lia.
Qed.

Lemma aeroforces_from_shift (self : Entry) (v1 v2 : list R) :
  forall h i,
    aeroforces_from self h (v1 ++ v2) (List.length v1 + i)
    = aeroforces_from self h v2 i.
Proof.
  induction h as [|hi h IH]; intros i; cbn [aeroforces_from];
    [reflexivity|].
  rewrite index_shift.
  replace (S (List.length v1 + i)) with (List.length v1 + S i)%nat by lia.
  rewrite IH. reflexivity.
Qed.

Lemma aeroforces_from_prefix (self : Entry) (v1 v2 : list R) :
  forall h i, (i + List.length h <= List.length v1)%nat ->
    aeroforces_from self h (v1 ++ v2) i = aeroforces_from self h v1 i.
Proof.
  induction h as [|hi h IH]; intros i Hi; cbn [aeroforces_from];
    [reflexivity|].
  cbn [List.length] in Hi.
  destruct (nth_error v1 i) as [vi|] eqn:Ev;
    [|apply nth_error_None in Ev; lia].
  rewrite (index_in_range v1 _ _ Ev).
  rewrite (index_in_range (v1 ++ v2) i vi)
    by (rewrite nth_error_app1 by lia; exact Ev).
  rewrite IH by lia. reflexivity.
Qed.

Lemma aeroforces_from_app (self : Entry) (v : list R) :
  forall h1 h2 i L1 D1 L2 D2,
    aeroforces_from self h1 v i = inr (L1, D1) ->
    aeroforces_from self h2 v (i + List.length h1) = inr (L2, D2) ->
    aeroforces_from self (h1 ++ h2) v i = inr (L1 ++ L2, D1 ++ D2).
Proof.
  induction h1 as [|hi h1 IH]; intros h2 i L1 D1 L2 D2 H1 H2.
  - cbn in H1. injection H1 as <- <-. cbn [List.length] in H2.
    rewrite Nat.add_0_r in H2. exact H2.
  - cbn [aeroforces_from app] in *.
    destruct (atmosphere (planet self) hi) as [rho a].
    destruct (Np.index v (Z.of_nat i)) as [e | vi]; [discriminate H1|].
    cbn [bind ret Monad_py Monad_either] in *.
    destruct (aerodynamic_coefficients _ _) as [cD cL].
    destruct (aeroforces_from self h1 v (S i)) as [e | [L1' D1']] eqn:E1;
      [discriminate H1|].
    cbn [bind ret Monad_py Monad_either] in H1. injection H1 as <- <-.
    rewrite (IH h2 (S i) L1' D1' L2 D2 E1)
      by (cbn [List.length] in H2;
          replace (S i + List.length h1)%nat
            with (i + S (List.length h1))%nat by lia; exact H2).
    reflexivity.
Qed.

(** X6: The evaluator works sample by sample: the forces of two batches put
    end to end are the forces of the first followed by those of the
    second. *)
Theorem aeroforces_of_concatenation (self : Entry)
    (r1 v1 r2 v2 L1 D1 L2 D2 : list R) :
  List.length r1 = List.length v1 ->
  aeroforces self r1 v1 = inr (L1, D1) ->
  aeroforces self r2 v2 = inr (L2, D2) ->
  aeroforces self (r1 ++ r2) (v1 ++ v2) = inr (L1 ++ L2, D1 ++ D2).
Proof.
  unfold aeroforces. intros Hlen H1 H2. rewrite map_app.
  apply aeroforces_from_app.
  - rewrite aeroforces_from_prefix by (rewrite length_map; lia). exact H1.
  - rewrite length_map, Hlen.
    replace (0 + List.length v1)%nat with (List.length v1 + 0)%nat by lia.
    rewrite aeroforces_from_shift. exact H2.
Qed.

Lemma aeroforces_of_concatenation_witness :
  aeroforces sample_entry ([3540000] ++ [3500000]) ([5505] ++ [5000])
  = inr ([fst (nominal_forces sample_entry 3540000 5505)]
           ++ [fst (nominal_forces sample_entry 3500000 5000)],
         [snd (nominal_forces sample_entry 3540000 5505)]
           ++ [snd (nominal_forces sample_entry 3500000 5000)]).
Proof.
  apply (aeroforces_of_concatenation sample_entry [3540000] [5505]
           [3500000] [5000]).
  - reflexivity.
  - apply aeroforces_single.
  - apply aeroforces_single.
Defined.

(** ** Normalised energy *)

Lemma last_map_default {A B : Type} (f : A -> B) (l : list A) (a : A) (b : B) :
  l <> [] -> last (map f l) b = f (last l a).
Proof.
  intros H. destruct (exists_last H) as (l' & x & ->).
  rewrite map_app. cbn [map]. rewrite !last_last. reflexivity.
Qed.

(** X7: When the first and the last sample of a trajectory differ in energy,
    the normalised energy has one entry per sample, starts at [0] and
    ends at [1]; an empty trajectory cannot be normalised. *)
Theorem energy_normalized_from_0_to_1 (self : Entry) (r v E : list R) :
  energy self r v false = inr E ->
  hd 0 E <> last E 0 ->
  exists out,
    energy self r v true = inr out
    /\ List.length out = List.length E
    /\ hd 2 out = 0 /\ last out 2 = 1.
Proof.
  unfold energy. intros HE Hne.
  destruct (Np.broadcast2 _ v r) as [e | E']; [discriminate HE|].
  cbn [bind ret Monad_py Monad_either] in *. injection HE as ->.
  destruct E as [|e0 E]; [exfalso; apply Hne; reflexivity|].
  assert (Hnil : e0 :: E <> []) by discriminate.
  rewrite index_0_cons. cbn [bind ret Monad_py Monad_either].
  destruct (exists_last Hnil) as (l' & el & Eq).
  assert (Hl : last (e0 :: E) 0 = el) by (rewrite Eq; apply last_last).
  assert (Hi : Np.index (e0 :: E) (-1) = inr el)
    by (rewrite Eq; apply index_last).
  rewrite Hi.
  cbn [bind ret Monad_py Monad_either].
  cbn [hd] in Hne. rewrite Hl in Hne.
  eexists. split; [reflexivity|]. split; [apply length_map|]. split.
  - cbn [map hd]. unfold Rdiv. ring.
  - rewrite (last_map_default _ _ 0 2 Hnil), Hl. field. lra.
Qed.

Lemma energy_normalized_from_0_to_1_witness :
  exists out,
    energy sample_entry [3540000; 3500000] [5505; 5000] true = inr out
    /\ List.length out
       = List.length
           [0.5 * 5505 ^ 2 + mu (planet sample_entry)
                             / radius (planet sample_entry)
            - mu (planet sample_entry) / 3540000 ^ 2;
            0.5 * 5000 ^ 2 + mu (planet sample_entry)
                             / radius (planet sample_entry)
            - mu (planet sample_entry) / 3500000 ^ 2]
    /\ hd 2 out = 0 /\ last out 2 = 1.
Proof.
  apply (energy_normalized_from_0_to_1 sample_entry [3540000; 3500000]
           [5505; 5000]).
  - reflexivity.
  - cbn [hd last sample_entry planet sample_planet mu radius].
    intros H.
    assert (G : 3540000 ^ 2 <> 0) by (apply pow_nonzero; lra).
    assert (G' : 3500000 ^ 2 <> 0) by (apply pow_nonzero; lra).
    apply (f_equal (fun z => z * (3540000 ^ 2 * 3500000 ^ 2))) in H.
    field_simplify in H; lra.
Defined.

Lemma energy_of_empty_trajectory (self : Entry) :
  energy self [] [] true = inl IndexError.
Proof. reflexivity. Qed.

(** ** The composite system *)

(** X8: [System(InputSample)] needs a sample of four entries
    [(CD, CL, rho0, sh)]; the navigation model it builds is the truth
    model, the nominal model comes from the zero sample, the three are
    unpowered non-rotating engines with unit ratios, and the filter gain
    starts at zero. *)
Theorem System_init_nav_is_truth (Planet_new : R -> R -> Planet)
    (EntryVehicle_new : R -> R -> EntryVehicle) (sample : list R) :
  (exists CD CL rho0 sh sys,
      sample = [CD; CL; rho0; sh]
      /\ System_init Planet_new EntryVehicle_new sample = inr sys
      /\ nav sys = truth sys
      /\ truth sys
         = set_dyn_model
             (bare_entry (Planet_new rho0 sh) (EntryVehicle_new CD CL) false)
             entry_3dof_method
      /\ model sys
         = set_dyn_model
             (bare_entry (Planet_new 0 0) (EntryVehicle_new 0 0) false)
             entry_3dof_method
      /\ gain sys = 0)
  \/ (List.length sample <> 4%nat
      /\ System_init Planet_new EntryVehicle_new sample = inl ValueError).
Proof.
  destruct sample as [|CD [|CL [|rho0 [|sh [|extra rest]]]]];
    try (right; split; [discriminate | reflexivity]).
  left. exists CD, CL, rho0, sh. eexists.
  split; [reflexivity|]. split; [reflexivity|].
  cbn [nav truth model gain]. repeat split. lra.
Qed.

Lemma filterUpdate_on_full_state (sys : System) (x : list R) (t : R) :
  (18 <= List.length x)%nat ->
  exists dRL dRD, filterUpdate sys x t = inr [dRL; dRD].
Proof.
  intros H. unfold filterUpdate.
  destruct (nth_error x 16) as [RL|] eqn:E16;
    [|apply nth_error_None in E16; lia].
  destruct (nth_error x 17) as [RD|] eqn:E17;
    [|apply nth_error_None in E17; lia].
  destruct (nth_error x 8) as [x8|] eqn:E8;
    [|apply nth_error_None in E8; lia].
  destruct (nth_error x 11) as [x11|] eqn:E11;
    [|apply nth_error_None in E11; lia].
  apply index_in_range in E16, E17, E8, E11.
  change (Z.of_nat 16) with 16%Z in E16. change (Z.of_nat 17) with 17%Z in E17.
  change (Z.of_nat 8) with 8%Z in E8. change (Z.of_nat 11) with 11%Z in E11.
  rewrite E16, E17, E8, E11.
  cbn [bind ret Monad_py Monad_either].
  rewrite !aeroforces_single.
  cbn [bind ret Monad_py Monad_either].
  rewrite !index_0_cons.
  cbn [bind ret Monad_py Monad_either].
  eexists. eexists. reflexivity.
Qed.

(** X9: The filter update returns the two ratio derivatives on a composite
    state of at least eighteen entries and raises [IndexError] on a
    shorter one. *)
Theorem filterUpdate_needs_eighteen (sys : System) (x : list R) (t : R) :
  ((18 <= List.length x)%nat
   /\ exists dRL dRD, filterUpdate sys x t = inr [dRL; dRD])
  \/ ((List.length x < 18)%nat /\ filterUpdate sys x t = inl IndexError).
Proof.
  destruct (Nat.le_gt_cases 18 (List.length x)) as [H | H].
  - left. split; [exact H | apply filterUpdate_on_full_state; exact H].
  - right. split; [exact H|]. unfold filterUpdate.
    destruct (nth_error x 16) as [RL|] eqn:E16.
    + apply index_in_range in E16. change (Z.of_nat 16) with 16%Z in E16.
      rewrite E16. cbn [bind ret Monad_py Monad_either].
      assert (E17 : (List.length x <= 17)%nat) by lia.
      apply index_past_end in E17. change (Z.of_nat 17) with 17%Z in E17.
      rewrite E17. reflexivity.
    + apply nth_error_None in E16. apply index_past_end in E16.
      change (Z.of_nat 16) with 16%Z in E16. rewrite E16. reflexivity.
Qed.

Lemma slice_length (x : list R) (a b : nat) :
  (b <= List.length x)%nat -> List.length (slice x a b) = (b - a)%nat.
Proof.
  intros H. unfold slice. rewrite length_firstn, length_skipn. lia.
Qed.



(** ** Feasibility of switch points, any number of them *)

Lemma sum_from (l : list R) :
  forall a, fold_left Rplus l a = a + fold_left Rplus l 0.
Proof.
  induction l as [|x l IH]; intros a; cbn [fold_left].
  - lra.
  - rewrite (IH (a + x)), (IH (0 + x)). lra.
Qed.

Lemma sum_cons (x : R) (l : list R) : Np.sum (x :: l) = x + Np.sum l.
Proof. unfold Np.sum. cbn [fold_left]. rewrite sum_from. lra. Qed.

Lemma sum_nonneg (l : list R) : Forall (fun x => 0 <= x) l -> 0 <= Np.sum l.
Proof.
  induction 1 as [|x l Hx _ IH]; [unfold Np.sum; cbn; lra|].
  rewrite sum_cons. lra.
Qed.

Lemma sum_zero_iff (l : list R) :
  Forall (fun x => 0 <= x) l ->
  (Np.sum l = 0 <-> Forall (fun x => x = 0) l).
Proof.
  induction 1 as [|x l Hx Hl IH].
  - split; [constructor | reflexivity].
  - rewrite sum_cons. pose proof (sum_nonneg l Hl) as Hs. split.
    + intros H. constructor; [lra | apply IH; lra].
    + intros H. inversion H as [|? ? H0 Hr]; subst.
      apply IH in Hr. lra.
Qed.

Lemma zipWith_map_r (f : R -> R -> R) (g : R -> R) (l : list R) :
  Np.zipWith f l (map g l) = map (fun x => f x (g x)) l.
Proof. induction l as [|x l IH]; cbn; [|rewrite IH]; reflexivity. Qed.

Lemma zipWith_map_l (f : R -> R -> R) (g : R -> R) (l : list R) :
  Np.zipWith f (map g l) l = map (fun x => f (g x) x) l.
Proof. induction l as [|x l IH]; cbn; [|rewrite IH]; reflexivity. Qed.

Lemma checkFeasibility_zero_general (T : list R) (sg : R) :
  checkFeasibility T sg = 0
  <-> Forall (fun d => sg * d <= 0) (Np.diff T) /\ Forall (fun t => 0 <= t) T.
Proof.
  unfold checkFeasibility, Np.add, Np.sub, Np.abs, Np.scale.
  rewrite zipWith_map_r, zipWith_map_l, map_map.
  set (A := map (fun x => sg * x + Rabs (sg * x)) (Np.diff T)).
  set (B := map (fun t => Rabs t - t) T).
  assert (HA : Forall (fun x => 0 <= x) A).
  { apply Forall_map, Forall_forall. intros x _. rewrite plus_abs.
    pose proof (Rmax_r (sg * x) 0). lra. }
  assert (HB : Forall (fun x => 0 <= x) B).
  { apply Forall_map, Forall_forall. intros x _. rewrite abs_minus.
    pose proof (Rmax_r (- x) 0). lra. }
  pose proof (sum_nonneg A HA) as SA. pose proof (sum_nonneg B HB) as SB.
  assert (EA : Np.sum A = 0 <-> Forall (fun d => sg * d <= 0) (Np.diff T)).
  { rewrite (sum_zero_iff A HA). unfold A. rewrite Forall_map.
    split; intros H; eapply Forall_impl; try exact H; cbv beta;
      intros d Hd; rewrite plus_abs in *;
      unfold Rmax in *; destruct (Rle_dec (sg * d) 0); lra. }
  assert (EB : Np.sum B = 0 <-> Forall (fun t => 0 <= t) T).
  { rewrite (sum_zero_iff B HB). unfold B. rewrite Forall_map.
    split; intros H; eapply Forall_impl; try exact H; cbv beta;
      intros d Hd; rewrite abs_minus in *;
      unfold Rmax in *; destruct (Rle_dec (- d) 0); lra. }
  destruct (truthy ((Np.sum A + Np.sum B) * 1e5)) eqn:Et.
  - apply truthy_true in Et.
    pose proof (Rmax_r ((Np.sum A + Np.sum B) * 1e5) 1e7) as Hm.
    split; [intros H; lra|].
    intros [H1 H2]. apply EA in H1. apply EB in H2. exfalso. apply Et.
    rewrite H1, H2. lra.
  - apply truthy_false in Et. split; [|reflexivity].
    intros _. split; [apply EA | apply EB]; lra.
Qed.

Lemma diff_nondecreasing (T : list R) :
  Forall (fun d => -1 * d <= 0) (Np.diff T) <-> nondecreasing T.
Proof.
  induction T as [|a [|b T] IH]; cbn [Np.diff nondecreasing].
  - split; [trivial | constructor].
  - split; [trivial | constructor].
  - split.
    + intros H. inversion H as [|? ? Hd Hr]; subst.
      split; [lra | apply IH; exact Hr].
    + intros [Hab Hr]. constructor; [lra | apply IH; exact Hr].
Qed.

Lemma diff_opp_nondecreasing (v : list R) :
  Forall (fun d => 1 * d <= 0) (Np.diff (map Ropp v)) <-> nondecreasing v.
Proof.
  induction v as [|a [|b v] IH]; cbn [Np.diff nondecreasing map].
  - split; [trivial | constructor].
  - split; [trivial | constructor].
  - split.
    + intros H. inversion H as [|? ? Hd Hr]; subst.
      split; [lra | apply IH; exact Hr].
    + intros [Hab Hr]. constructor; [lra | apply IH; exact Hr].
Qed.

Lemma check_time_zero (T : list R) :
  Forall (fun t => 0 <= t) T -> nondecreasing T -> check_time T = 0.
Proof.
  intros H1 H2. unfold check_time.
  apply checkFeasibility_zero_general. split; [|exact H1].
  apply diff_nondecreasing. exact H2.
Qed.

(** X11: For any number of switch times, the time parametrisation's check is
    zero exactly on the non-negative, non-decreasing vectors. *)
Theorem check_time_zero_iff (T : list R) :
  check_time T = 0 <-> Forall (fun t => 0 <= t) T /\ nondecreasing T.
Proof.
  unfold check_time. rewrite checkFeasibility_zero_general, diff_nondecreasing.
  tauto.
Qed.

Lemma check_velocity_zero (v : list R) :
  Forall (fun x => x <= 0) v -> nondecreasing v -> check_velocity v = 0.
Proof.
  intros H1 H2. unfold check_velocity.
  apply checkFeasibility_zero_general. split.
  - apply diff_opp_nondecreasing. exact H2.
  - apply Forall_map. eapply Forall_impl; try exact H1. cbv beta.
    intros; lra.
Qed.

(** X12: For any number of switch velocities, the velocity parametrisation's
    check is zero exactly on the non-positive, non-decreasing vectors:
    the speeds [- v] are then non-negative and descending. *)
Theorem check_velocity_zero_iff (v : list R) :
  check_velocity v = 0 <-> Forall (fun x => x <= 0) v /\ nondecreasing v.
Proof.
  unfold check_velocity.
  rewrite checkFeasibility_zero_general, diff_opp_nondecreasing, Forall_map.
  assert (E : Forall (fun x => 0 <= - x) v <-> Forall (fun x => x <= 0) v).
  { split; intros H; eapply Forall_impl; try exact H; cbv beta; intros;
      lra. }
  tauto.
Qed.

(** ** Where the bank profiles start and settle *)

Lemma HEPBank_regimes (t1 t2 t3 mn mx t : R) :
  0 <= mn <= mx -> 0 <= t1 -> 0 <= t2 -> 0 <= t3 ->
  (t < 0 -> HEPBank_at t t1 t2 t3 mn mx = mn)
  /\ (0 <= t < t1 -> HEPBank_at t t1 t2 t3 mn mx = - mn)
  /\ (t1 + (mx + mn) / Np.radians 20 <= t2 ->
      t2 + 2 * mx / Np.radians 20 <= t3 ->
      t3 + (mx + mn) / Np.radians 20 <= t ->
      HEPBank_at t t1 t2 t3 mn mx = mn).
Proof.
  intros H0 P1 P2 P3.
  pose proof (radians_pos 20 ltac:(lra)) as K.
  pose proof (quotients_ordered (Np.radians 20) mn mx K H0) as Q.
  rewrite HEPBank_at_units.
  set (k := Np.radians 20) in *. clearbody k.
  assert (Emn : mn = k * (mn / k)) by (field; lra).
  replace ((mx + mn) / k) with (mx / k + mn / k) by (field; lra).
  replace (2 * mx / k) with (2 * (mx / k)) by (field; lra).
  set (a := mn / k) in *. set (b := mx / k) in *. clearbody a b.
  split; [|split]; intros.
  - transitivity (k * a); [f_equal; unfold rect3; branches; lra | nra].
  - transitivity (k * - a); [f_equal; unfold rect3; branches; lra | nra].
  - transitivity (k * a); [f_equal; unfold rect3; branches; lra | nra].
Qed.

Lemma reduced_profiles_regimes (t1 t2 mn mx t : R) :
  0 <= mn <= mx ->
  (t <= t1 ->
   HEPBankReduced_at t t1 t2 mn mx = mx
   /\ HEPBankReducedSmooth_at t t1 t2 mn mx = mx)
  /\ (t1 + 2 * mx / Np.radians 20 <= t2 ->
      t2 + (mx + mn) / Np.radians 20 <= t ->
      HEPBankReduced_at t t1 t2 mn mx = mn)
  /\ (2 * (0.5 * Np.radians 20 ^ 2 / Np.radians 5) <= mn + mx ->
      t1 + 2 * mx / Np.radians 20 + Np.radians 20 / Np.radians 5 <= t2 ->
      t2 + (mn + mx) / Np.radians 20 + Np.radians 20 / Np.radians 5 <= t ->
      HEPBankReducedSmooth_at t t1 t2 mn mx = mn).
Proof.
  intros H0.
  pose proof (radians_pos 20 ltac:(lra)) as K.
  pose proof (radians_pos 5 ltac:(lra)) as K5.
  pose proof (quotients_ordered (Np.radians 20) mn mx K H0) as Q.
  pose proof (quotients_ordered (Np.radians 5) mn mx K5 H0) as Q5.
  assert (E4 : Np.radians 20 = 4 * Np.radians 5)
    by (unfold Np.radians; lra).
  split; [|split].
  - intros Ht. split.
    + unfold HEPBankReduced_at. branches; lra.
    + unfold HEPBankReducedSmooth_at. branches; lra.
  - rewrite HEPBankReduced_at_units.
    set (k := Np.radians 20) in *. clearbody k.
    assert (Emn : mn = k * (mn / k)) by (field; lra).
    replace ((mx + mn) / k) with (mx / k + mn / k) by (field; lra).
    replace (2 * mx / k) with (2 * (mx / k)) by (field; lra).
    set (a := mn / k) in *. set (b := mx / k) in *. clearbody a b.
    intros S1 S2.
    transitivity (k * a); [f_equal; unfold rect2; branches; lra | nra].
  - rewrite HEPBankReducedSmooth_at_units. rewrite E4.
    set (k := Np.radians 5) in *. clearbody k.
    assert (Emn : mn = k * (mn / k)) by (field; lra).
    replace ((mn + mx) / (4 * k)) with ((mn / k + mx / k) / 4)
      by (field; lra).
    replace (2 * mx / (4 * k)) with (2 * (mx / k) / 4) by (field; lra).
    replace (4 * k / k) with 4 by (field; lra).
    replace (2 * (0.5 * (4 * k) ^ 2 / k)) with (16 * k)
      by (replace 0.5 with (/ 2) by lra; field; lra).
    intros Hd.
    assert (H16 : 16 <= mn / k + mx / k).
    { apply (Rmult_le_reg_l k); [exact K5|].
      replace (k * (mn / k + mx / k)) with (mn + mx) by (field; lra). lra. }
    clear Hd.
    set (a := mn / k) in *. set (b := mx / k) in *. clearbody a b.
    intros S1 S2.
    transitivity (k * a); [f_equal; unfold smooth2; branches; nra | nra].
Qed.

Lemma default_ramps :
  (maxBank_default + minBank_default) / Np.radians 20 = 5
  /\ (minBank_default + maxBank_default) / Np.radians 20 = 5
  /\ 2 * maxBank_default / Np.radians 20 = 17 / 2
  /\ Np.radians 20 / Np.radians 5 = 4
  /\ 2 * (0.5 * Np.radians 20 ^ 2 / Np.radians 5) = Np.radians 80.
Proof.
  unfold minBank_default, maxBank_default.
  rewrite dbank_value, !radians_plus, !radians_times, !radians_ratio by lra.
  repeat split; try lra; unfold Np.radians; lra.
Qed.

(** X13: With non-negative switch times that leave room for the transitions,
    [HEPBank] answers [+ minBank] at a negative time, [- minBank] from
    time zero up to the first switch, and [+ minBank] again from the end
    of the last transition on. *)
Theorem HEPBank_start_and_settle (t1 t2 t3 mn mx ta tb tc : R) :
  0 <= mn <= mx -> 0 <= t1 ->
  t1 + (mx + mn) / Np.radians 20 <= t2 ->
  t2 + 2 * mx / Np.radians 20 <= t3 ->
  ta < 0 -> 0 <= tb < t1 -> t3 + (mx + mn) / Np.radians 20 <= tc ->
  HEPBank_at ta t1 t2 t3 mn mx = mn
  /\ HEPBank_at tb t1 t2 t3 mn mx = - mn
  /\ HEPBank_at tc t1 t2 t3 mn mx = mn.
Proof.
  intros H0 P1 S1 S2 Ha Hb Hc.
  pose proof (radians_pos 20 ltac:(lra)) as K.
  assert (D1 : 0 <= (mx + mn) / Np.radians 20)
    by (apply Rmult_le_pos; [lra | apply Rlt_le, Rinv_0_lt_compat, K]).
  assert (D2 : 0 <= 2 * mx / Np.radians 20)
    by (apply Rmult_le_pos; [lra | apply Rlt_le, Rinv_0_lt_compat, K]).
  assert (P2 : 0 <= t2) by lra. assert (P3 : 0 <= t3) by lra.
  destruct (HEPBank_regimes t1 t2 t3 mn mx ta H0 P1 P2 P3) as (A & _ & _).
  destruct (HEPBank_regimes t1 t2 t3 mn mx tb H0 P1 P2 P3) as (_ & B & _).
  destruct (HEPBank_regimes t1 t2 t3 mn mx tc H0 P1 P2 P3) as (_ & _ & C).
  split; [apply A; exact Ha|]. split; [apply B; exact Hb|].
  apply C; assumption.
Qed.

Lemma HEPBank_start_and_settle_witness :
  HEPBank_at (-1) 50 100 133 minBank_default maxBank_default
  = minBank_default
  /\ HEPBank_at 10 50 100 133 minBank_default maxBank_default
     = - minBank_default
  /\ HEPBank_at 140 50 100 133 minBank_default maxBank_default
     = minBank_default.
Proof.
  destruct default_ramps as (R1 & _ & R2 & _).
  apply (HEPBank_start_and_settle 50 100 133 minBank_default maxBank_default
           (-1) 10 140); rewrite ?R1, ?R2; try lra.
  apply defaults_ordered.
Defined.

(** X14: The two-switch profiles answer [maxBank] up to the first switch and,
    when the switch times leave room for the transitions of the smooth
    profile, [minBank] from the end of its second transition on. *)
Theorem reduced_profiles_start_and_settle (t1 t2 mn mx ta tc : R) :
  0 <= mn <= mx ->
  2 * (0.5 * Np.radians 20 ^ 2 / Np.radians 5) <= mn + mx ->
  t1 + 2 * mx / Np.radians 20 + Np.radians 20 / Np.radians 5 <= t2 ->
  ta <= t1 ->
  t2 + (mn + mx) / Np.radians 20 + Np.radians 20 / Np.radians 5 <= tc ->
  HEPBankReduced_at ta t1 t2 mn mx = mx
  /\ HEPBankReducedSmooth_at ta t1 t2 mn mx = mx
  /\ HEPBankReduced_at tc t1 t2 mn mx = mn
  /\ HEPBankReducedSmooth_at tc t1 t2 mn mx = mn.
Proof.
  intros H0 Hd S1 Ha Hc.
  assert (R4 : Np.radians 20 / Np.radians 5 = 4)
    by (rewrite radians_ratio by lra; lra).
  rewrite R4 in *.
  destruct (reduced_profiles_regimes t1 t2 mn mx ta H0) as (A & _ & _).
  destruct (reduced_profiles_regimes t1 t2 mn mx tc H0) as (_ & B & C).
  destruct (A Ha) as [A1 A2].
  split; [exact A1|]. split; [exact A2|]. split.
  - apply B; [lra|].
    replace ((mx + mn) / Np.radians 20) with ((mn + mx) / Np.radians 20)
      by (f_equal; ring). lra.
  - apply C; rewrite ?R4; assumption.
Qed.

Lemma reduced_profiles_start_and_settle_witness :
  HEPBankReduced_at 0 106 133 minBank_default maxBank_default
  = maxBank_default
  /\ HEPBankReducedSmooth_at 0 106 133 minBank_default maxBank_default
     = maxBank_default
  /\ HEPBankReduced_at 150 106 133 minBank_default maxBank_default
     = minBank_default
  /\ HEPBankReducedSmooth_at 150 106 133 minBank_default maxBank_default
     = minBank_default.
Proof.
  destruct default_ramps as (_ & R1 & R2 & R3 & R4).
  apply (reduced_profiles_start_and_settle 106 133 minBank_default
           maxBank_default 0 150); rewrite ?R1, ?R2, ?R3, ?R4; try lra.
  - apply defaults_ordered.
  - unfold minBank_default, maxBank_default, Np.radians.
    pose proof PI_RGT_0. lra.
Defined.


(** ** The smooth profile against the rate-limited one *)

Lemma rect2_scale_rate c k t t1 t2 mn mx :
  k <> 0 -> c <> 0 ->
  rect2 (c * k) t t1 t2 (k * mn) (k * mx) = k * rect2 c t t1 t2 mn mx.
Proof.
  intros Hk Hc. unfold rect2.
  replace ((k * mx + k * mn) / (c * k)) with ((mx + mn) / c)
    by (field; split; assumption).
  replace (2 * (k * mx) / (c * k)) with (2 * mx / c)
    by (field; split; assumption).
  same_branches; ring.
Qed.

Lemma smooth2_near_rect2 t1 t2 mn mx t :
  0 <= mn <= mx -> 8 <= mx -> 16 <= mn + mx ->
  t1 + 2 * mx / 4 + 4 / 1 <= t2 ->
  Rabs (smooth2 4 1 t t1 t2 mn mx - rect2 4 t t1 t2 mn mx) <= 8.
Proof.
  intros H0 H8 H16 S1. apply Rabs_le. unfold smooth2, rect2.
  branches; nra.
Qed.

(** X15: With switch times that leave room for its transitions, the smooth
    profile never departs from [HEPBankReduced] by more than [dbank], the
    angle covered while the rate builds up. *)
Theorem smooth_profile_within_dbank_of_reduced (t1 t2 mn mx t : R) :
  0 <= mn <= mx ->
  0.5 * Np.radians 20 ^ 2 / Np.radians 5 <= mx ->
  2 * (0.5 * Np.radians 20 ^ 2 / Np.radians 5) <= mn + mx ->
  t1 + 2 * mx / Np.radians 20 + Np.radians 20 / Np.radians 5 <= t2 ->
  Rabs (HEPBankReducedSmooth_at t t1 t2 mn mx
        - HEPBankReduced_at t t1 t2 mn mx)
  <= 0.5 * Np.radians 20 ^ 2 / Np.radians 5.
Proof.
  intros H0 Hd Hd2 S1.
  pose proof (radians_pos 5 ltac:(lra)) as K5.
  assert (E4 : Np.radians 20 = 4 * Np.radians 5)
    by (unfold Np.radians; lra).
  rewrite HEPBankReducedSmooth_at_units.
  change (HEPBankReduced_at t t1 t2 mn mx)
    with (rect2 (Np.radians 20) t t1 t2 mn mx).
  rewrite E4 in *.
  set (k := Np.radians 5) in *. clearbody k.
  replace (0.5 * (4 * k) ^ 2 / k) with (k * 8) in *
    by (replace 0.5 with (/ 2) by lra; field; lra).
  replace (4 * k / k) with 4 in S1 by (field; lra).
  replace (rect2 (4 * k) t t1 t2 mn mx)
    with (k * rect2 4 t t1 t2 (mn / k) (mx / k))
    by (rewrite <- rect2_scale_rate by lra; f_equal; field; lra).
  rewrite <- Rmult_minus_distr_l.
  apply scaled_abs_le; [exact K5|].
  pose proof (quotients_ordered k mn mx K5 H0) as Q.
  apply smooth2_near_rect2; try assumption.
  - apply (Rmult_le_reg_l k); [exact K5|].
    replace (k * (mx / k)) with mx by (field; lra). lra.
  - apply (Rmult_le_reg_l k); [exact K5|].
    replace (k * (mn / k + mx / k)) with (mn + mx) by (field; lra). lra.
  - replace (2 * (mx / k) / 4) with (2 * mx / (4 * k)) by (field; lra). lra.
Qed.

Lemma smooth_profile_within_dbank_of_reduced_witness :
  Rabs (HEPBankReducedSmooth_at 110 106 133 minBank_default maxBank_default
        - HEPBankReduced_at 110 106 133 minBank_default maxBank_default)
  <= 0.5 * Np.radians 20 ^ 2 / Np.radians 5.
Proof.
  destruct default_ramps as (_ & R1 & R2 & R3 & R4).
  apply (smooth_profile_within_dbank_of_reduced 106 133 minBank_default
           maxBank_default 110); rewrite ?R2, ?R3, ?R4, ?dbank_value;
    try apply defaults_ordered;
    unfold minBank_default, maxBank_default, Np.radians;
    pose proof PI_RGT_0; lra.
Defined.

(** ** The controller's options, edge cases and cost *)

(** X16: [options(N, T)] cuts the horizon into [N] steps that add up to [T];
    [N = 0] is a division by zero. *)
Theorem options_steps_tile_horizon (N : Z) (T : R) :
  (N <> 0%Z
   /\ exists o, MPC.options N T = inr o
                /\ MPC.N o = N /\ MPC.T o = T /\ MPC.dt o * IZR N = T)
  \/ (N = 0%Z /\ MPC.options N T = inl ZeroDivisionError).
Proof.
  unfold MPC.options. destruct (Z.eqb_spec N 0) as [E | E].
  - right. split; [exact E | reflexivity].
  - left. split; [exact E|]. eexists. split; [reflexivity|].
    cbn. repeat split. field. intros H. apply E. apply eq_IZR. exact H.
Qed.


Section ControllerEdges.

Variable sim_run :
  MPC.Options -> list R -> list R -> list R -> list (list R).
Variable minimize :
  (list R -> py R) -> list R -> list (R * R) -> list R.
Variable minimize_scalar : (R -> py R) -> R * R -> R.

(** X17: With no segment ([N <= 0]) the controller raises [IndexError]: the
    list of bounds is empty and the scalar search asks for its first
    entry. *)
Theorem controller_without_segments_raises (opts : MPC.Options)
    (bounds : R * R) (refs : MPC.References) (kw : MPC.Kwargs) :
  (MPC.N opts <= 0)%Z ->
  MPC.controller sim_run minimize minimize_scalar opts bounds refs kw
  = inl IndexError.
Proof.
  intros HN. unfold MPC.controller, MPC.optimize.
  destruct (Z.gtb_spec (MPC.N opts) 1) as [H | _]; [lia|].
  replace (Z.to_nat (MPC.N opts)) with 0%nat by lia.
  reflexivity.
Qed.

Hypothesis minimize_shape :
  forall f guess bounds,
    List.length (minimize f guess bounds) = List.length guess.


End ControllerEdges.

Lemma controller_without_segments_raises_witness :
  MPC.controller sample_sim_run sample_minimize sample_minimize_scalar
    {| MPC.N := 0; MPC.T := 5; MPC.dt := 0 |} (0, PI / 2) sample_references
    sample_kwargs
  = inl IndexError.
Proof.
  apply (controller_without_segments_raises sample_sim_run sample_minimize
           sample_minimize_scalar).
  cbn. lia.
Defined.








(** ** The trigger index of the switch-time cost *)

(** X20: [HEPCost] scores the row before the trigger index; a trigger found at
    index [0] therefore wraps around and is scored on the last row of
    the trajectory, exactly as a trigger found at the very end. *)
Theorem trigger_at_zero_scores_last_row
    (first_row past_end : list (list R) -> list R -> Z)
    (entry : EntryModel) (target : Target) (x0 : list R)
    (X : list (list R)) (time : list R) :
  X <> [] ->
  first_row X time = 0%Z ->
  past_end X time = Z.of_nat (List.length X) ->
  terminal_cost first_row entry target x0 X time
  = terminal_cost past_end entry target x0 X time.
Proof.
  intros HX H0 Hn. unfold terminal_cost. rewrite H0, Hn.
  change (0 - 1)%Z with (-1)%Z.
  rewrite (index_last_is_length X HX). reflexivity.
Qed.

Lemma trigger_at_zero_scores_last_row_witness :
  terminal_cost (fun _ _ => 0%Z) sample_entry_model sample_target
    [3540000; 0; 0; 5505; 0; 0] [[3540000; 0; 0]; [3400000; 1; 0]] [0; 450]
  = terminal_cost (fun X _ => Z.of_nat (List.length X)) sample_entry_model
      sample_target [3540000; 0; 0; 5505; 0; 0]
      [[3540000; 0; 0]; [3400000; 1; 0]] [0; 450].
Proof.
  apply (trigger_at_zero_scores_last_row (fun _ _ => 0%Z)
           (fun X _ => Z.of_nat (List.length X))).
  - discriminate.
  - reflexivity.
  - reflexivity.
Defined.

(** ** The switch-time optimiser *)

Lemma Entry_Trigger_raises (entry : EntryModel) :
  Entry_Trigger entry = inl TypeError.
Proof. reflexivity. Qed.

Section OptimizerProperties.

Variable odeint :
  (list R -> R -> py (list R)) -> list R -> list R -> py (list (list R)).
Variable findTriggerPoint : list (list R) -> list R -> Z.
Variable minimize : (list R -> py R) -> list R -> py (list R).
Variable entry : EntryModel.
Variable target : Target.

(** X21: A number of switches other than two or three is reported on the
    output and answered with [None], whatever the independent variable
    and without any search. *)
Theorem Optimize_rejects_other_n (x0 : list R) (n : Z) (iv : string) :
  n <> 2%Z -> n <> 3%Z ->
  Optimize odeint findTriggerPoint minimize entry target x0 n iv
  = ([Text "Optimize: improper input for n."], inr None).
Proof.
  intros H2 H3. unfold Optimize.
  destruct (Z.eqb_spec n 3) as [E | _]; [contradiction|].
  destruct (Z.eqb_spec n 2) as [E | _]; [contradiction|].
  reflexivity.
Qed.

(** X22: For two or three switches [Optimize] raises [TypeError], whatever
    the independent variable and whatever the optimiser: it calls [Entry]
    with the keyword [Trigger], which [Entry.__init__] does not accept,
    before it reads [getIV] or [check] and before any search. *)
Theorem Optimize_raises_at_Entry_Trigger (x0 : list R) (n : Z)
    (iv : string) :
  n = 2%Z \/ n = 3%Z ->
  Optimize odeint findTriggerPoint minimize entry target x0 n iv
  = ([], inl TypeError).
Proof.
  intros Hn. unfold Optimize. rewrite Entry_Trigger_raises.
  destruct Hn as [-> | ->]; reflexivity.
Qed.

(** X25: [OptimizeSmooth] raises [TypeError] on every input, whatever the
    global search: its first statement calls [Entry] with the keyword
    [Trigger], which [Entry.__init__] does not accept, so that
    [differential_evolution] is never called. *)
Theorem OptimizeSmooth_raises_at_Entry_Trigger
    (differential_evolution :
       (list R -> py R) -> list (R * R) -> py (list R * R))
    (x0 : list R) :
  OptimizeSmooth odeint findTriggerPoint differential_evolution entry target
    x0
  = ([], inl TypeError).
Proof.
  unfold OptimizeSmooth. rewrite Entry_Trigger_raises. reflexivity.
Qed.

End OptimizerProperties.

Lemma Optimize_rejects_other_n_witness :
  Optimize sample_odeint sample_findTriggerPoint sample_search
    sample_entry_model sample_target [3540000; 0; 0; 5505; 0; 0] 4 "time"
  = ([Text "Optimize: improper input for n."], inr None).
Proof.
  apply (Optimize_rejects_other_n sample_odeint sample_findTriggerPoint
           sample_search sample_entry_model sample_target); lia.
Defined.

Lemma Optimize_raises_at_Entry_Trigger_witness :
  Optimize sample_odeint sample_findTriggerPoint sample_search
    sample_entry_model sample_target [3540000; 0; 0; 5505; 0; 0] 3 "time"
  = ([], inl TypeError).
Proof.
  apply (Optimize_raises_at_Entry_Trigger sample_odeint
           sample_findTriggerPoint sample_search sample_entry_model
           sample_target).
  right. reflexivity.
Defined.
